(** * A shallow embedding of the VFS core of the OS shell emulator

    The development follows [src/main.py], class [VFS]: path
    normalisation, node lookup, the ZIP importer and the four commands
    [list_dir], [change_dir], [cat_file] and [chmod]; then the shell
    around it, [ShellEmulator.execute_command] with [Logger.log], the
    startup script and the interactive loop.

    Modelling conventions.
    - A Python [str] is a list of Unicode code points ([N]); a Python
      [bytes] object is a [list byte].  String literals of the source are
      written [lit "..."].
    - A node of the tree is a Python dict with the keys "type",
      "children", "content" and "permissions".  "type" is always present.
      An absent "children" key is modelled by the empty child list: the
      source reads the key only through [node.get("children", {})] and
      writes it only through [node.setdefault("children", {})], so absence
      and emptiness cannot be told apart.  "content" and "permissions" are
      options, [None] standing for an absent key.
    - A dict is an association list in insertion order (Python dicts keep
      insertion order; assigning to an existing key keeps its position).
    - The tree is built by the importer out of fresh dicts only, so no two
      paths alias one node; an in-place update of the node reached through
      a path is the functional rebuild of the tree along that path.
    - Every command returns a Python string.  The error strings are
      modelled by one constructor per message, the success payloads are
      kept as the text the source builds. *)

From Stdlib Require Import List NArith ZArith Lia Bool.
From Stdlib Require Import Strings.String Strings.Ascii Strings.Byte.
Import ListNotations.

Local Open Scope N_scope.

(** ** Python strings *)

Definition str := list N.

Definition lit (s : string) : str :=
  List.map N_of_ascii (list_ascii_of_string s).

Definition SLASH : N := 47.

Fixpoint str_eqb (a b : str) : bool :=
  match a, b with
  | [], [] => true
  | x :: a', y :: b' => (x =? y) && str_eqb a' b'
  | _, _ => false
  end.

(** [s.startswith(c)] for a one-character prefix. *)
Definition startswith (s : str) (c : N) : bool :=
  match s with
  | x :: _ => x =? c
  | [] => false
  end.

(** [s.endswith(c)] for a one-character suffix. *)
Fixpoint endswith (s : str) (c : N) : bool :=
  match s with
  | [] => false
  | [x] => x =? c
  | _ :: s' => endswith s' c
  end.

(** [s.rstrip(c)]: drop every trailing occurrence of the character. *)
Fixpoint rstrip (s : str) (c : N) : str :=
  match s with
  | [] => []
  | x :: s' =>
      match rstrip s' c with
      | [] => if x =? c then [] else [x]
      | r => x :: r
      end
  end.

(** [s.split(sep)] for a one-character separator; never the empty list. *)
Fixpoint split (s : str) (sep : N) : list str :=
  match s with
  | [] => [[]]
  | x :: s' =>
      if x =? sep then [] :: split s' sep
      else match split s' sep with
           | seg :: rest => (x :: seg) :: rest
           | [] => [[x]]
           end
  end.

(** [sep.join(l)]. *)
Fixpoint join (sep : str) (l : list str) : str :=
  match l with
  | [] => []
  | [x] => x
  | x :: rest => x ++ sep ++ join sep rest
  end.

(** [os.path.join(a, b)] of [posixpath], two arguments. *)
Definition os_path_join (a b : str) : str :=
  if startswith b SLASH then b
  else if str_eqb a [] || endswith a SLASH then a ++ b
  else a ++ lit "/" ++ b.

(** ** Nodes and the session *)

Inductive ntype := TDir | TFile.

#[local] Set Warnings "-register-all".

Inductive Node :=
  mkNode (type : ntype) (children : list (str * Node))
         (content : option str) (permissions : option Z).

Definition type (n : Node) := let 'mkNode t _ _ _ := n in t.
Definition children (n : Node) := let 'mkNode _ ch _ _ := n in ch.
Definition content (n : Node) := let 'mkNode _ _ c _ := n in c.
Definition permissions (n : Node) := let 'mkNode _ _ _ p := n in p.

Definition set_children (n : Node) (ch : list (str * Node)) : Node :=
  mkNode (type n) ch (content n) (permissions n).
Definition set_permissions (n : Node) (p : Z) : Node :=
  mkNode (type n) (children n) (content n) (Some p).

Section Dict.

Context {V : Type}.

(** [d.get(k)], [k in d] and [d[k]] *)
Fixpoint dict_get (k : str) (d : list (str * V)) : option V :=
  match d with
  | [] => None
  | (k', v) :: d' => if str_eqb k k' then Some v else dict_get k d'
  end.

(** [d[k] = v]: an existing key keeps its place, a new key goes last. *)
Fixpoint dict_set (k : str) (v : V) (d : list (str * V)) : list (str * V) :=
  match d with
  | [] => [(k, v)]
  | (k', v') :: d' =>
      if str_eqb k k' then (k, v) :: d' else (k', v') :: dict_set k v d'
  end.

Definition dict_keys (d : list (str * V)) : list str := List.map fst d.

End Dict.

Record VFS := mkVFS { root : Node; current_path : str }.

(** [VFS.__init__] *)
Definition VFS_init : VFS := mkVFS (mkNode TDir [] None None) (lit "/").

(** ** [VFS.normalize_path] *)

(** The filter of line 33: [p] is neither empty nor a single dot. *)
Definition keep_part (p : str) : bool :=
  negb (str_eqb p []) && negb (str_eqb p (lit ".")).

(** One iteration of the loop of lines 35-40 on the stack [resolved]. *)
Definition resolve_step (resolved : list str) (p : str) : list str :=
  if str_eqb p (lit "..") then
    match resolved with
    | [] => resolved
    | _ => removelast resolved
    end
  else resolved ++ [p].

(** Line 41. *)
Definition assemble (resolved : list str) : str :=
  match resolved with
  | [] => lit "/"
  | _ => lit "/" ++ join (lit "/") resolved
  end.

Definition normalize_path (self : VFS) (path : str) : str :=
  let target :=
    if startswith path SLASH then path
    else rstrip (os_path_join (current_path self) path) SLASH in
  let parts := filter keep_part (split target SLASH) in
  let resolved := fold_left resolve_step parts [] in
  assemble resolved.

(** The normaliser as section 4.1 of the specification words it: join
    with the current directory by a separator, split, discard empty and
    "." segments, let ".." pop or do nothing, reassemble. *)
Definition spec_normalize (current path : str) : str :=
  let target :=
    if startswith path SLASH then path else current ++ lit "/" ++ path in
  let segments :=
    filter (fun p => negb (str_eqb p []) && negb (str_eqb p (lit ".")))
           (split target SLASH) in
  let kept :=
    fold_left (fun acc p =>
                 if str_eqb p (lit "..")
                 then removelast acc
                 else acc ++ [p]) segments [] in
  match kept with
  | [] => lit "/"
  | _ => lit "/" ++ join (lit "/") kept
  end.

(** ** [VFS.get_node] *)

(** The descent of lines 50-56 from [node] along [parts]. *)
Fixpoint descend (parts : list str) (node : Node) : option Node :=
  match parts with
  | [] => Some node
  | part :: rest =>
      match dict_get part (children node) with
      | Some child => descend rest child
      | None => None
      end
  end.

(** Line 49: [[p for p in path.split("/") if p]]. *)
Definition path_parts (path : str) : list str :=
  filter (fun p => negb (str_eqb p [])) (split path SLASH).

Definition get_node (self : VFS) (path : str) : option Node :=
  let path := normalize_path self path in
  if str_eqb path (lit "/") then Some (root self)
  else descend (path_parts path) (root self).

(** The place of the dict that [get_node] returns a reference to: the
    keys followed from the root. *)
Definition node_ref (self : VFS) (path : str) : list str :=
  let path := normalize_path self path in
  if str_eqb path (lit "/") then [] else path_parts path.

(** ** Library functions the importer and [cat_file] call *)

Definition bytes := list byte.

(** Assignment to a C [unsigned char]. *)
Definition byte_of_N (n : N) : byte :=
  match Byte.of_N (n mod 256) with
  | Some b => b
  | None => x00
  end.

Definition b64_alphabet : list N :=
  lit "ABCDEFGHIJKLMNOPQRSTUVWXYZabcdefghijklmnopqrstuvwxyz0123456789+/".

Definition BASE64_PAD : N := 61.

Definition table_b2a_base64 (i : N) : byte :=
  byte_of_N (nth (N.to_nat i) b64_alphabet BASE64_PAD).

Fixpoint index_of (c : N) (l : list N) (i : N) : option N :=
  match l with
  | [] => None
  | x :: l' => if x =? c then Some i else index_of c l' (i + 1)
  end.

(** The decoding table of [binascii]: the 6-bit value of an alphabet
    character, [None] for every other character. *)
Definition table_a2b_base64 (c : N) : option N := index_of c b64_alphabet 0.

(** The four 6-bit groups of three bytes [n0 n1 n2]. *)
Definition sextet1 (n0 : N) : N := N.shiftr n0 2.
Definition sextet2 (n0 n1 : N) : N :=
  N.lor (N.shiftl (N.land n0 3) 4) (N.shiftr n1 4).
Definition sextet3 (n1 n2 : N) : N :=
  N.lor (N.shiftl (N.land n1 15) 2) (N.shiftr n2 6).
Definition sextet4 (n2 : N) : N := N.land n2 63.

(** [base64.b64encode]: RFC 4648 with padding, no line breaks; a last
    group of one or two bytes is filled with zero bits and padded. *)
Fixpoint b64encode (s : bytes) : bytes :=
  match s with
  | [] => []
  | [b0] =>
      let n0 := Byte.to_N b0 in
      [table_b2a_base64 (sextet1 n0);
       table_b2a_base64 (sextet2 n0 0);
       byte_of_N BASE64_PAD; byte_of_N BASE64_PAD]
  | [b0; b1] =>
      let n0 := Byte.to_N b0 in
      let n1 := Byte.to_N b1 in
      [table_b2a_base64 (sextet1 n0);
       table_b2a_base64 (sextet2 n0 n1);
       table_b2a_base64 (sextet3 n1 0);
       byte_of_N BASE64_PAD]
  | b0 :: b1 :: b2 :: rest =>
      let n0 := Byte.to_N b0 in
      let n1 := Byte.to_N b1 in
      let n2 := Byte.to_N b2 in
      table_b2a_base64 (sextet1 n0)
      :: table_b2a_base64 (sextet2 n0 n1)
      :: table_b2a_base64 (sextet3 n1 n2)
      :: table_b2a_base64 (sextet4 n2)
      :: b64encode rest
  end.

(** The loop of [binascii.a2b_base64] in its default, non-strict mode:
    characters outside the alphabet are skipped, a complete pad sequence
    ends the input, a dangling quad is an error. *)
Fixpoint a2b_base64 (data : list N) (quad_pos leftchar pads : N)
         (bin_data : bytes) : option bytes :=
  match data with
  | [] => if quad_pos =? 0 then Some bin_data else None
  | this_ch :: rest =>
      if this_ch =? BASE64_PAD then
        if (2 <=? quad_pos) && (4 <=? quad_pos + (pads + 1)) then Some bin_data
        else a2b_base64 rest quad_pos leftchar
                        (if 2 <=? quad_pos then pads + 1 else pads) bin_data
      else
        match table_a2b_base64 this_ch with
        | None => a2b_base64 rest quad_pos leftchar pads bin_data
        | Some v =>
            match quad_pos with
            | 0 => a2b_base64 rest 1 v 0 bin_data
            | 1 => a2b_base64 rest 2 (N.land v 15) 0
                     (bin_data ++
                      [byte_of_N (N.lor (N.shiftl leftchar 2) (N.shiftr v 4))])
            | 2 => a2b_base64 rest 3 (N.land v 3) 0
                     (bin_data ++
                      [byte_of_N (N.lor (N.shiftl leftchar 4) (N.shiftr v 2))])
            | _ => a2b_base64 rest 0 0 0
                     (bin_data ++ [byte_of_N (N.lor (N.shiftl leftchar 6) v)])
            end
        end
  end.

(** [base64.b64decode(s)] on a [str]: the text must be ASCII, then
    [a2b_base64]; [None] stands for the exception. *)
Definition b64decode (s : str) : option bytes :=
  if forallb (fun c => c <? 128) s then a2b_base64 s 0 0 0 [] else None.

Definition is_cont (b : N) : bool := (128 <=? b) && (b <=? 191).

(** The strict UTF-8 decoder on byte values: shortest forms only, no
    surrogates, nothing above U+10FFFF; [None] is [UnicodeDecodeError]. *)
Fixpoint utf8_decode (bs : list N) : option str :=
  match bs with
  | [] => Some []
  | b0 :: r0 =>
      if b0 <? 128 then option_map (cons b0) (utf8_decode r0)
      else if b0 <? 194 then None
      else if b0 <? 224 then
        match r0 with
        | b1 :: r1 =>
            if is_cont b1
            then option_map (cons ((b0 - 192) * 64 + (b1 - 128)))
                            (utf8_decode r1)
            else None
        | _ => None
        end
      else if b0 <? 240 then
        match r0 with
        | b1 :: b2 :: r2 =>
            if is_cont b1 && is_cont b2
               && (negb (b0 =? 224) || (160 <=? b1))
               && (negb (b0 =? 237) || (b1 <=? 159))
            then option_map
                   (cons ((b0 - 224) * 4096 + (b1 - 128) * 64 + (b2 - 128)))
                   (utf8_decode r2)
            else None
        | _ => None
        end
      else if b0 <? 245 then
        match r0 with
        | b1 :: b2 :: b3 :: r3 =>
            if is_cont b1 && is_cont b2 && is_cont b3
               && (negb (b0 =? 240) || (144 <=? b1))
               && (negb (b0 =? 244) || (b1 <=? 143))
            then option_map
                   (cons ((b0 - 240) * 262144 + (b1 - 128) * 4096
                          + (b2 - 128) * 64 + (b3 - 128)))
                   (utf8_decode r3)
            else None
        | _ => None
        end
      else None
  end.

(** [b.decode()] *)
Definition bytes_decode (b : bytes) : option str :=
  utf8_decode (List.map Byte.to_N b).

(** The white space of Unicode, [Py_UNICODE_ISSPACE]: what [str.strip],
    [str.split] and, from 127 on, [int] take as white space. *)
Definition is_whitespace (c : N) : bool :=
  ((9 <=? c) && (c <=? 13)) || ((28 <=? c) && (c <=? 32))
  || (c =? 133) || (c =? 160) || (c =? 5760)
  || ((8192 <=? c) && (c <=? 8202))
  || (c =? 8232) || (c =? 8233) || (c =? 8239) || (c =? 8287)
  || (c =? 12288).

(** The decimal digits of Unicode outside ASCII (Unicode 14.0, the table
    of CPython 3.11): the code point of every digit zero; the nine code
    points after it are the digits one to nine of the same script. *)
Definition unicode_digit_zeros : list N :=
  [1632; 1776; 1984; 2406; 2534; 2662; 2790; 2918; 3046; 3174; 3302; 3430;
   3558; 3664; 3792; 3872; 4160; 4240; 6112; 6160; 6470; 6608; 6784; 6800;
   6992; 7088; 7232; 7248; 42528; 43216; 43264; 43472; 43504; 43600; 44016;
   65296; 66720; 68912; 69734; 69872; 69942; 70096; 70384; 70736; 70864;
   71248; 71360; 71472; 71904; 72016; 72784; 73040; 73120; 92768; 92864;
   93008; 120782; 120792; 120802; 120812; 120822; 123200; 123632; 125264;
   130032].

(** [Py_UNICODE_TODECIMAL] from 127 on: the value of a decimal digit. *)
Definition unicode_todecimal (c : N) : option N :=
  match find (fun z => (z <=? c) && (c <? z + 10)) unicode_digit_zeros with
  | Some z => Some (c - z)
  | None => None
  end.

(** The loop of [_PyUnicode_TransformDecimalAndSpaceToASCII]: characters
    below 127 stay, white space becomes a space, a decimal digit its
    ASCII digit; any other character becomes "?" and ends the text. *)
Fixpoint transform_loop (s : str) : str :=
  match s with
  | [] => []
  | ch :: s' =>
      if ch <? 127 then ch :: transform_loop s'
      else if is_whitespace ch then 32 :: transform_loop s'
      else
        match unicode_todecimal ch with
        | Some decimal => (48 + decimal) :: transform_loop s'
        | None => [63]
        end
  end.

(** [_PyUnicode_TransformDecimalAndSpaceToASCII]: an ASCII text is
    returned as it is. *)
Definition transform_decimal_and_space (s : str) : str :=
  if forallb (fun c => c <? 128) s then s else transform_loop s.

(** [PyLong_FromString] in base 8 on the transformed text: optional
    surrounding ASCII white space, an optional sign, an optional "0o"
    prefix, octal digits with single underscores between them; [None]
    is [ValueError]. *)
Definition is_space (c : N) : bool := (c =? 32) || ((9 <=? c) && (c <=? 13)).

Fixpoint skip_space (s : str) : str :=
  match s with
  | c :: s' => if is_space c then skip_space s' else s
  | [] => []
  end.

Definition UNDERSCORE : N := 95.

Definition octal_digit (c : N) : option N :=
  if (48 <=? c) && (c <=? 55) then Some (c - 48) else None.

(** The digit loop of [long_from_binary_base]: [prev] tells whether the
    previous character was an underscore, [digits] counts the digits. *)
Fixpoint scan_octal (s : str) (prev : bool) (digits : nat) (acc : N)
  : option (N * nat * str) :=
  match s with
  | [] => if prev then None else Some (acc, digits, [])
  | c :: s' =>
      if c =? UNDERSCORE then
        if prev then None else scan_octal s' true digits acc
      else
        match octal_digit c with
        | Some d => scan_octal s' false (S digits) (acc * 8 + d)
        | None => if prev then None else Some (acc, digits, s)
        end
  end.

Definition long_from_string (s : str) : option Z :=
  let s := skip_space s in
  let '(negative, s) :=
    match s with
    | 43 :: s' => (false, s')
    | 45 :: s' => (true, s')
    | _ => (false, s)
    end in
  let s :=
    match s with
    | 48 :: 111 :: s' | 48 :: 79 :: s' =>
        match s' with
        | 95 :: s'' => s''
        | _ => s'
        end
    | _ => s
    end in
  if startswith s UNDERSCORE then None
  else
    match scan_octal s false O 0 with
    | Some (n, S _, rest) =>
        match skip_space rest with
        | [] => Some (if negative then (- Z.of_N n)%Z else Z.of_N n)
        | _ => None
        end
    | _ => None
    end.

(** [int(s, 8)] on a [str]: the decimal digits and the white space of
    every script count, as their ASCII counterparts. *)
Definition int_base8 (s : str) : option Z :=
  long_from_string (transform_decimal_and_space s).

(** [oct(z)] *)
Fixpoint oct_digits (fuel : nat) (n : N) (acc : str) : str :=
  match fuel with
  | O => acc
  | S fuel' =>
      let acc' := (48 + n mod 8) :: acc in
      if n / 8 =? 0 then acc' else oct_digits fuel' (n / 8) acc'
  end.

Definition oct (z : Z) : str :=
  let n := Z.abs_N z in
  (if (z <? 0)%Z then lit "-0o" else lit "0o")
    ++ oct_digits (S (N.to_nat (N.log2 n))) n [].

(** [s[-3:]] *)
Definition last3 (s : str) : str := skipn (List.length s - 3)%nat s.

(** ** [VFS.load_from_zip] *)

(** One [ZipInfo] of [zf.infolist()], with what the archive answers for
    it: [is_dir] is [info.is_dir()], [read] the outcome of
    [zf.read(info.filename)], [None] when that call raises. *)
Record ZipInfo := mkZipInfo {
  filename : str;
  is_dir : bool;
  read : option bytes
}.

Definition new_file (text : str) : Node :=
  mkNode TFile [] (Some text) (Some 420%Z).

Definition new_dir : Node := mkNode TDir [] None (Some 493%Z).

(** Lines 78-83: create the directory [part] under [node] if the name is
    not there yet. *)
Definition ensure_dir (part : str) (node : Node) : Node :=
  match dict_get part (children node) with
  | Some _ => node
  | None => set_children node (dict_set part new_dir (children node))
  end.

(** The test of line 68, [rest] being the parts after the current one. *)
Definition at_file_part (rest : list str) (info : ZipInfo) : bool :=
  match rest with
  | [] => negb (is_dir info)
  | _ => false
  end.

(** The inner loop of lines 67-84 from [node] on, over the parts that are
    left.  The second component is [false] when an exception left the
    loop; the node returned carries what was written until then. *)
Fixpoint import_parts (parts : list str) (info : ZipInfo) (node : Node)
  : Node * bool :=
  match parts with
  | [] => (node, true)
  | part :: rest =>
      if at_file_part rest info then
        match read info with
        | None => (node, false)
        | Some content =>
            match bytes_decode (b64encode content) with
            | None => (node, false)
            | Some text =>
                (set_children node
                   (dict_set part (new_file text) (children node)), true)
            end
        end
      else
        let node1 := ensure_dir part node in
        match dict_get part (children node1) with
        | None => (node1, false)
        | Some child =>
            let '(child', ok) := import_parts rest info child in
            (set_children node1 (dict_set part child' (children node1)), ok)
        end
  end.

(** The body of the outer loop, lines 63-84. *)
Definition import_entry (info : ZipInfo) (node : Node) : Node * bool :=
  let path := rstrip (filename info) SLASH in
  let parts := split path SLASH in
  import_parts parts info node.

Fixpoint import_entries (infolist : list ZipInfo) (node : Node)
  : Node * bool :=
  match infolist with
  | [] => (node, true)
  | info :: rest =>
      let '(node', ok) := import_entry info node in
      if ok then import_entries rest node' else (node', false)
  end.

(** [zf] is the archive behind [zip_path]: [None] when opening it or
    listing it raises, else its [infolist()].  The result pairs the
    returned boolean with the session afterwards. *)
Definition load_from_zip (self : VFS) (zf : option (list ZipInfo))
  : bool * VFS :=
  match zf with
  | None => (false, self)
  | Some infolist =>
      let '(root', ok) := import_entries infolist (root self) in
      (ok, mkVFS root' (current_path self))
  end.

(** ** The commands *)

(** What a command returns.  The first four constructors are the error
    messages (lines 96/114/127/143, 98/116, 129 and 152, with the value
    interpolated); the others carry the success text or its parameters. *)
Inductive Result :=
| NotFound (path : str)
| NotADirectory (path : str)
| NotAFile (path : str)
| InvalidMode (mode : str)
| Listing (text : str)
| Moved (target : str)
| Content (text : str)
| ModeSet (mode : Z) (path : str).

Definition EMPTY_LISTING : str := [40; 1087; 1091; 1089; 1090; 1086; 41].

(** One line of the listing, lines 102-104. *)
Definition list_item (entry : str * Node) : str :=
  let '(name, child) := entry in
  let typ := match type child with TDir => lit "d" | TFile => lit "-" end in
  let perm :=
    last3 (oct (match permissions child with Some p => p | None => 0%Z end)) in
  typ ++ perm ++ lit " " ++ name.

Definition list_dir (self : VFS) (path : str) : Result :=
  let target := normalize_path self path in
  match get_node self target with
  | None => NotFound path
  | Some node =>
      match type node with
      | TFile => NotADirectory path
      | TDir =>
          let items := List.map list_item (children node) in
          Listing (match items with
                   | [] => EMPTY_LISTING
                   | _ => join [10] items
                   end)
      end
  end.

Definition change_dir (self : VFS) (path : str) : Result * VFS :=
  let target := normalize_path self path in
  match get_node self target with
  | None => (NotFound path, self)
  | Some node =>
      match type node with
      | TFile => (NotADirectory path, self)
      | TDir => (Moved target, mkVFS (root self) target)
      end
  end.

Definition cat_file (self : VFS) (path : str) : Result :=
  let target := normalize_path self path in
  match get_node self target with
  | None => NotFound path
  | Some node =>
      match type node with
      | TDir => NotAFile path
      | TFile =>
          let content := match content node with Some c => c | None => [] end in
          match b64decode content with
          | Some raw =>
              match bytes_decode raw with
              | Some text => Content text
              | None => Content content
              end
          | None => Content content
          end
      end
  end.

(** The [mode] argument of [chmod]: a string or a number. *)
Inductive Mode := MStr (s : str) | MInt (z : Z).

(** [node["permissions"] = mode] on the node that sits at [parts]. *)
Fixpoint set_permissions_at (parts : list str) (mode : Z) (node : Node)
  : Node :=
  match parts with
  | [] => set_permissions node mode
  | part :: rest =>
      match dict_get part (children node) with
      | Some child =>
          set_children node
            (dict_set part (set_permissions_at rest mode child)
                      (children node))
      | None => node
      end
  end.

Definition chmod (self : VFS) (mode : Mode) (path : str) : Result * VFS :=
  let target := normalize_path self path in
  match get_node self target with
  | None => (NotFound path, self)
  | Some _ =>
      match mode with
      | MStr s =>
          match int_base8 s with
          | Some m =>
              (ModeSet m path,
               mkVFS (set_permissions_at (node_ref self target) m (root self))
                     (current_path self))
          | None => (InvalidMode s, self)
          end
      | MInt m =>
          (ModeSet m path,
           mkVFS (set_permissions_at (node_ref self target) m (root self))
                 (current_path self))
      end
  end.

(** A call of one of the four commands, and the session after it. *)
Inductive Call :=
| CallList (path : str)
| CallChangeDir (path : str)
| CallCat (path : str)
| CallChmod (mode : Mode) (path : str).

Definition call (self : VFS) (c : Call) : Result * VFS :=
  match c with
  | CallList path => (list_dir self path, self)
  | CallChangeDir path => change_dir self path
  | CallCat path => (cat_file self path, self)
  | CallChmod mode path => chmod self mode path
  end.

Definition run (self : VFS) (cs : list Call) : VFS :=
  fold_left (fun s c => snd (call s c)) cs self.

(** ** Notions the statements use *)

(** The segments that may sit on the stack of the normaliser. *)
Definition canonical_part (p : str) : Prop :=
  keep_part p = true /\ str_eqb p (lit "..") = false /\ ~ In SLASH p.

(** The stack the normaliser ends with. *)
Definition resolved_of (self : VFS) (path : str) : list str :=
  let target :=
    if startswith path SLASH then path
    else rstrip (os_path_join (current_path self) path) SLASH in
  fold_left resolve_step (filter keep_part (split target SLASH)) [].

(** What a node holds by itself: its type, the names of its children in
    order, its content and its permissions. *)
Definition shallow (n : Node) : ntype * list str * option str * option Z :=
  (type n, dict_keys (children n), content n, permissions n).

(** One entry of a listing as a triple: name, kind, permissions (0 when
    the node has no permissions key, as line 103 reads it). *)
Definition dir_entries (node : Node) : list (str * ntype * Z) :=
  List.map (fun entry : str * Node =>
              let '(name, child) := entry in
              (name, type child,
               match permissions child with Some p => p | None => 0%Z end))
           (children node).

(** The text [list_dir] makes of the triples. *)
Definition render_entry (e : str * ntype * Z) : str :=
  let '(name, kind, perm) := e in
  (match kind with TDir => lit "d" | TFile => lit "-" end)
    ++ last3 (oct perm) ++ lit " " ++ name.

Definition render_listing (es : list (str * ntype * Z)) : str :=
  match es with
  | [] => EMPTY_LISTING
  | _ => join [10] (List.map render_entry es)
  end.

(** Insertion of a name into the ordered key list of a dict. *)
Definition add_key (keys : list str) (k : str) : list str :=
  if existsb (str_eqb k) keys then keys else keys ++ [k].

(** The first path component of an archive entry. *)
Definition first_part (info : ZipInfo) : str :=
  hd [] (split (rstrip (filename info) SLASH) SLASH).

(** Every permissions key present in the tree holds a value in 0..0o777. *)
Definition perm_in_range (p : option Z) : bool :=
  match p with
  | Some z => (0 <=? z)%Z && (z <=? 511)%Z
  | None => true
  end.

Fixpoint perms_ok (n : Node) : bool :=
  match n with
  | mkNode _ ch _ p =>
      perm_in_range p && forallb (fun kv => perms_ok (snd kv)) ch
  end.

(** The value [chmod] stores for a mode, if it accepts it. *)
Definition mode_value (mode : Mode) : option Z :=
  match mode with
  | MStr s => int_base8 s
  | MInt z => Some z
  end.

(** A call that is not a [chmod] with an accepted out-of-range mode. *)
Definition call_in_range (c : Call) : bool :=
  match c with
  | CallChmod mode _ =>
      match mode_value mode with
      | Some m => (0 <=? m)%Z && (m <=? 511)%Z
      | None => true
      end
  | _ => true
  end.

(** The text stored for file content [b]: its base64 form. *)
Definition b64text (b : bytes) : str := List.map Byte.to_N (b64encode b).

(** The parts of an entry name, lines 63-64. *)
Definition entry_parts (info : ZipInfo) : list str :=
  split (rstrip (filename info) SLASH) SLASH.

(** A directory entry of the same name. *)
Definition as_directory (info : ZipInfo) : ZipInfo :=
  mkZipInfo (filename info) true None.

(** ** Finite checks over bytes *)








(** ** Sample archives *)

Definition entry_docs : ZipInfo := mkZipInfo (lit "docs/") true None.
Definition entry_readme : ZipInfo :=
  mkZipInfo (lit "docs/readme.txt") false (Some [x68; x65; x6c; x6c; x6f]).
Definition entry_blob : ZipInfo := mkZipInfo (lit "b.bin") false (Some [xff]).
Definition entry_broken : ZipInfo := mkZipInfo (lit "c/d.txt") false None.

Definition sample_vfs : VFS :=
  snd (load_from_zip VFS_init (Some [entry_docs; entry_readme; entry_blob])).

(** [q] is an initial part of [parts]. *)
Definition is_prefix (q parts : list str) : Prop :=
  exists r, parts = q ++ r.


(** ** Notions of the further properties *)

(** The session invariant: the root is a directory and [current_path] is
    a normalised path that [get_node] resolves to a directory. *)
Definition session_ok (s : VFS) : Prop :=
  type (root s) = TDir
  /\ normalize_path s (current_path s) = current_path s
  /\ exists node, get_node s (current_path s) = Some node /\ type node = TDir.

(** The kept parts of a path text, line 33. *)
Definition kept_parts (s : str) : list str :=
  filter keep_part (split s SLASH).


(** [q] and [parts] share the components [c] and then part ways. *)
Definition diverge (q parts : list str) : Prop :=
  exists c k k' q' p',
    q = c ++ k :: q' /\ parts = c ++ k' :: p' /\ str_eqb k k' = false.




(** No name occurs twice in a key list. *)
Fixpoint nodup_keys (l : list str) : bool :=
  match l with
  | [] => true
  | k :: l' => negb (existsb (str_eqb k) l') && nodup_keys l'
  end.

(** No directory of the tree holds a name twice. *)
Fixpoint names_unique (n : Node) : bool :=
  match n with
  | mkNode _ ch _ _ =>
      nodup_keys (dict_keys ch)
      && forallb (fun kv => names_unique (snd kv)) ch
  end.

(** The permission column [list_dir] shows for a value in 0..0o777:
    three octal digits from 0o100 on, and below that what is left of the
    "0o" prefix before the digits. *)
Definition permission_column (p : Z) : str :=
  let digit (z : Z) : N := Z.to_N (48 + z)%Z in
  if (p <? 8)%Z then [48; 111; digit p]
  else if (p <? 64)%Z then [111; digit (p / 8)%Z; digit (p mod 8)%Z]
  else [digit (p / 64)%Z; digit ((p / 8) mod 8)%Z; digit (p mod 8)%Z].

(** ** The shell around the VFS: [ShellEmulator] and [Logger]

    What the shell asks of the machine it runs on is an argument: the
    home directory, [shlex.split] and [os.getlogin] in a [Host], the two
    readings of [datetime.now()] of one command in a [Clock].  Text that
    is printed is not modelled; the entry that [Logger.log] also writes
    to the log file is the one it appends to [logs]. *)

Fixpoint lstrip_ws (s : str) : str :=
  match s with
  | c :: s' => if is_whitespace c then lstrip_ws s' else s
  | [] => []
  end.

(** [s.strip()] *)
Definition strip (s : str) : str := rev (lstrip_ws (rev (lstrip_ws s))).

(** [s.split()]: the maximal runs of characters that are not white
    space; [word] is the run being read. *)
Fixpoint split_ws (s : str) (word : str) : list str :=
  match s with
  | [] => match word with [] => [] | _ => [word] end
  | c :: s' =>
      if is_whitespace c then
        match word with
        | [] => split_ws s' []
        | _ => word :: split_ws s' []
        end
      else split_ws s' (word ++ [c])
  end.

(** ["$HOME" in text] *)
Fixpoint contains_home (text : str) : bool :=
  match text with
  | [] => false
  | c :: rest =>
      match text with
      | 36 :: 72 :: 79 :: 77 :: 69 :: _ => true
      | _ => contains_home rest
      end
  end.

(** [text.replace("$HOME", home)]: the occurrences from left to right,
    none overlapping. *)
Fixpoint replace_home (home : str) (text : str) : str :=
  match text with
  | [] => []
  | c :: rest =>
      match rest with
      | 72 :: 79 :: 77 :: 69 :: rest' =>
          if c =? 36 then home ++ replace_home home rest'
          else c :: replace_home home rest
      | _ => c :: replace_home home rest
      end
  end.

Record Host := mkHost {
  expanduser_home : str;
  shlex_split : str -> option (list str);
  os_getlogin : str + str
}.

Record Clock := mkClock { now_isoformat : str; now_strftime : str }.

(** What [execute_command] returns: one constructor per text. *)
Inductive Output :=
| NoOutput
| ExitMessage
| FromVfs (r : Result)
| LoginName (name : str)
| DateText (text : str)
| CatUsage
| ChmodUsage
| UnknownCommand (cmd : str)
| ExecutionError (exception : str).

Record LogEntry := mkLogEntry {
  timestamp : str;
  command : str;
  args : list str;
  error : option Output
}.

Record ShellEmulator := mkShell {
  vfs : VFS;
  running : bool;
  history : list str;
  logs : list LogEntry
}.

(** [ShellEmulator.expand_env_vars] *)
Definition expand_env_vars (host : Host) (text : str) : str :=
  if contains_home text then replace_home (expanduser_home host) text
  else text.

(** [ShellEmulator.parse_input] *)
Definition parse_input (host : Host) (user_input : str) : list str :=
  match shlex_split host user_input with
  | Some parts => parts
  | None => split_ws user_input []
  end.

(** The branches of lines 275-300: the text returned, the error put into
    the log entry, and the shell after the command. *)
Definition dispatch (host : Host) (clock : Clock) (self : ShellEmulator)
           (cmd : str) (args : list str)
  : Output * option Output * ShellEmulator :=
  let with_vfs (v : VFS) : ShellEmulator :=
    mkShell v (running self) (history self) (logs self) in
  if str_eqb cmd (lit "exit") then
    (ExitMessage, None,
     mkShell (vfs self) false (history self) (logs self))
  else if str_eqb cmd (lit "ls") then
    let path := match args with a :: _ => a | [] => lit "." end in
    (FromVfs (list_dir (vfs self) path), None, self)
  else if str_eqb cmd (lit "cd") then
    let path := match args with a :: _ => a | [] => lit "/" end in
    let '(r, v) := change_dir (vfs self) path in
    (FromVfs r, None, with_vfs v)
  else if str_eqb cmd (lit "whoami") then
    match os_getlogin host with
    | inl name => (LoginName name, None, self)
    | inr e => (ExecutionError e, Some (ExecutionError e), self)
    end
  else if str_eqb cmd (lit "date") then
    (DateText (now_strftime clock), None, self)
  else if str_eqb cmd (lit "cat") then
    match args with
    | [] => (CatUsage, None, self)
    | a :: _ => (FromVfs (cat_file (vfs self) a), None, self)
    end
  else if str_eqb cmd (lit "chmod") then
    match args with
    | mode :: path :: _ =>
        let '(r, v) := chmod (vfs self) (MStr mode) path in
        (FromVfs r, None, with_vfs v)
    | _ => (ChmodUsage, None, self)
    end
  else (UnknownCommand cmd, Some (UnknownCommand cmd), self).

(** [ShellEmulator.execute_command], with [Logger.log] and the append to
    [history] of lines 307-308. *)
Definition execute_command (host : Host) (clock : Clock)
           (self : ShellEmulator) (user_input : str)
  : Output * ShellEmulator :=
  let user_input := expand_env_vars host user_input in
  match parse_input host user_input with
  | [] => (NoOutput, self)
  | cmd :: args =>
      let '(result, err, self') := dispatch host clock self cmd args in
      let entry := mkLogEntry (now_isoformat clock) cmd args err in
      (result,
       mkShell (vfs self') (running self')
               (history self' ++ [user_input]) (logs self' ++ [entry]))
  end.

(** The loop of [run_startup_script], lines 230-238, over the lines of
    the script, each with the clock readings of its command. *)
Fixpoint run_script_lines (host : Host) (self : ShellEmulator)
         (lines : list (Clock * str)) : ShellEmulator :=
  match lines with
  | [] => self
  | (clock, line) :: rest =>
      let line := strip line in
      if match line with [] => true | _ => startswith line 35 end
      then run_script_lines host self rest
      else run_script_lines host
             (snd (execute_command host clock self line)) rest
  end.

(** [ShellEmulator.run_startup_script]; [script] is [None] when the file
    does not exist or cannot be read. *)
Definition run_startup_script (host : Host) (self : ShellEmulator)
           (script : option (list (Clock * str))) : ShellEmulator :=
  match script with
  | None => self
  | Some lines => run_script_lines host self lines
  end.

(** What one call of [input] gives. *)
Inductive InputEvent :=
| InputLine (text : str)
| InputInterrupt
| InputEOF.

(** [ShellEmulator.run_interactive] over the events of the terminal; a
    list that runs out stands for the end of the input. *)
Fixpoint run_interactive (host : Host) (self : ShellEmulator)
         (events : list (Clock * InputEvent)) : ShellEmulator :=
  if running self then
    match events with
    | [] => self
    | (clock, InputLine text) :: rest =>
        match strip text with
        | [] => run_interactive host self rest
        | user_input =>
            run_interactive host
              (snd (execute_command host clock self user_input)) rest
        end
    | (_, InputInterrupt) :: _ => self
    | (_, InputEOF) :: _ => self
    end
  else self.

(** The shell of [ShellEmulator.__init__] after [load_vfs]: a fresh
    [VFS] with the archive imported, running, nothing logged.  [zf] is
    [None] also when no archive is configured, the file is missing or its
    name does not end in ".zip": the VFS is then the fresh one. *)
Definition shell_with_vfs (zf : option (list ZipInfo)) : ShellEmulator :=
  mkShell (snd (load_from_zip VFS_init zf)) true [] [].

(** The commands of a list, one after the other. *)
Definition execute_all (host : Host) (self : ShellEmulator)
           (inputs : list (Clock * str)) : ShellEmulator :=
  fold_left (fun s ci => snd (execute_command host (fst ci) s (snd ci)))
            inputs self.

(** A host for the examples: words are split at white space, the home
    directory is "/home/u", the login name is "u". *)
Definition sample_host : Host :=
  mkHost (lit "/home/u") (fun s => Some (split_ws s [])) (inl (lit "u")).

Definition sample_clock : Clock :=
  mkClock (lit "2024-01-01T00:00:00") (lit "2024-01-01 00:00:00").

(** The command names the dispatcher knows. *)
Definition known_command (cmd : str) : bool :=
  existsb (str_eqb cmd)
          [lit "exit"; lit "ls"; lit "cd"; lit "whoami"; lit "date";
           lit "cat"; lit "chmod"].

(** A script line that the loop of [run_startup_script] skips. *)
Definition skipped_line (line : str) : bool :=
  match strip line with
  | [] => true
  | s => startswith s 35
  end.

(** [p] is an initial part of [q], as a test. *)
Fixpoint prefixb (p q : list str) : bool :=
  match p, q with
  | [], _ => true
  | x :: p', y :: q' => str_eqb x y && prefixb p' q'
  | _ :: _, [] => false
  end.


(** * Properties *)

(** ** Strings *)

Lemma str_eqb_eq (a b : str) : str_eqb a b = true <-> a = b.
Proof.
  revert b; induction a as [|x a IH]; intros [|y b]; simpl;
    try (split; [discriminate | discriminate]); try tauto.
  rewrite andb_true_iff, N.eqb_eq, IH.
  split; [intros [-> ->]; reflexivity | intros H; inversion H; auto].
Qed.

Lemma str_eqb_refl (a : str) : str_eqb a a = true.
Proof. apply str_eqb_eq; reflexivity. Qed.

Lemma str_eqb_neq (a b : str) : str_eqb a b = false <-> a <> b.
Proof.
  rewrite <- str_eqb_eq. destruct (str_eqb a b); split; congruence.
Qed.

Lemma split_not_nil (s : str) (sep : N) : split s sep <> [].
Proof.
  destruct s as [|x s]; simpl; [discriminate|].
  destruct (x =? sep); [discriminate|].
  destruct (split s sep); discriminate.
Qed.

Lemma split_no_sep (s : str) (sep : N) :
  Forall (fun seg => ~ In sep seg) (split s sep).
Proof.
  induction s as [|x s IH]; simpl.
  - constructor; [intros [] | constructor].
  - destruct (x =? sep) eqn:E.
    + constructor; [intros [] | exact IH].
    + apply N.eqb_neq in E.
      destruct (split s sep) as [|seg rest].
      * constructor; [intros [H|[]]; congruence | constructor].
      * inversion IH; subst. constructor; [|assumption].
        intros [H|H]; [congruence | contradiction].
Qed.

Lemma split_app_sep (a b : str) (sep : N) :
  split (a ++ sep :: b) sep = split a sep ++ split b sep.
Proof.
  induction a as [|x a IH]; simpl.
  - rewrite N.eqb_refl. reflexivity.
  - destruct (x =? sep); [rewrite IH; reflexivity|].
    rewrite IH.
    destruct (split a sep) as [|seg rest] eqn:E; [|reflexivity].
    exfalso; exact (split_not_nil a sep E).
Qed.

Lemma split_no_sep_id (seg : str) (sep : N) :
  ~ In sep seg -> split seg sep = [seg].
Proof.
  induction seg as [|x seg IH]; simpl; intros H; [reflexivity|].
  destruct (x =? sep) eqn:E.
  - apply N.eqb_eq in E. exfalso; apply H; left; assumption.
  - rewrite IH; [reflexivity | intros H'; apply H; right; assumption].
Qed.

Lemma split_join (l : list str) (sep : N) :
  l <> [] -> Forall (fun seg => ~ In sep seg) l ->
  split (join [sep] l) sep = l.
Proof.
  induction l as [|x l IH]; intros Hne Hall; [congruence|].
  inversion Hall as [|? ? Hx Hl]; subst.
  destruct l as [|y l].
  - simpl. apply split_no_sep_id; assumption.
  - change (join [sep] (x :: y :: l)) with (x ++ sep :: join [sep] (y :: l)).
    rewrite split_app_sep, IH by (assumption || discriminate).
    rewrite split_no_sep_id by assumption. reflexivity.
Qed.

Lemma split_repeat_sep (sep : N) (n : nat) :
  split (repeat sep n) sep = repeat [] (S n).
Proof.
  induction n as [|n IH]; simpl; [reflexivity|].
  rewrite N.eqb_refl. simpl in IH. rewrite IH. reflexivity.
Qed.

Lemma split_app_repeat (t : str) (sep : N) (n : nat) :
  split (t ++ repeat sep n) sep = split t sep ++ repeat [] n.
Proof.
  destruct n as [|n]; simpl.
  - rewrite !app_nil_r. reflexivity.
  - rewrite split_app_sep, split_repeat_sep. reflexivity.
Qed.

Lemma rstrip_decomp (s : str) (c : N) :
  exists n, s = rstrip s c ++ repeat c n.
Proof.
  induction s as [|x s [n IH]]; simpl.
  - exists O; reflexivity.
  - destruct (rstrip s c) as [|y r] eqn:E.
    + destruct (x =? c) eqn:Ex.
      * apply N.eqb_eq in Ex. subst x. exists (S n). simpl in *. congruence.
      * exists n. simpl in *. congruence.
    + exists n. simpl in *. congruence.
Qed.

Lemma endswith_app (s : str) (c : N) :
  endswith s c = true -> exists s', s = s' ++ [c].
Proof.
  induction s as [|x s IH]; simpl; [discriminate|].
  destruct s as [|y s].
  - intros H. apply N.eqb_eq in H. subst. exists []. reflexivity.
  - intros H. destruct (IH H) as [s' Hs']. exists (x :: s').
    simpl. congruence.
Qed.

Lemma filter_keep_repeat_nil (n : nat) : filter keep_part (repeat [] n) = [].
Proof. induction n; simpl; auto. Qed.

(** Stripping trailing separators does not change the kept parts. *)
Lemma keep_split_rstrip (s : str) :
  filter keep_part (split (rstrip s SLASH) SLASH)
  = filter keep_part (split s SLASH).
Proof.
  destruct (rstrip_decomp s SLASH) as [n Hn].
  rewrite Hn at 2.
  rewrite split_app_repeat, filter_app, filter_keep_repeat_nil, app_nil_r.
  reflexivity.
Qed.

(** [os.path.join] and plain concatenation with a separator give the
    same kept parts. *)
Lemma keep_split_join (a b : str) :
  startswith b SLASH = false ->
  filter keep_part (split (os_path_join a b) SLASH)
  = filter keep_part (split (a ++ lit "/" ++ b) SLASH).
Proof.
  intros Hb. unfold os_path_join. rewrite Hb.
  change (lit "/" ++ b) with (SLASH :: b).
  destruct (str_eqb a []) eqn:Ea; simpl orb.
  - apply str_eqb_eq in Ea. subst a. simpl. reflexivity.
  - destruct (endswith a SLASH) eqn:Ee; [|reflexivity].
    destruct (endswith_app _ _ Ee) as [a' ->].
    rewrite <- !app_assoc. simpl.
    rewrite !split_app_sep, !filter_app.
    change (split (SLASH :: b) SLASH) with ([] :: split b SLASH).
    reflexivity.
Qed.

Lemma resolve_step_spec (acc : list str) (p : str) :
  resolve_step acc p
  = if str_eqb p (lit "..") then removelast acc else acc ++ [p].
Proof.
  unfold resolve_step. destruct (str_eqb p (lit "..")); [|reflexivity].
  destruct acc; reflexivity.
Qed.

Lemma Forall_removelast {A} (P : A -> Prop) (l : list A) :
  Forall P l -> Forall P (removelast l).
Proof.
  induction l as [|x l IH]; simpl; intros H; [constructor|].
  inversion H; subst. destruct l; [constructor|].
  constructor; auto.
Qed.

Lemma resolve_canonical (parts acc : list str) :
  Forall (fun p => keep_part p = true /\ ~ In SLASH p) parts ->
  Forall canonical_part acc ->
  Forall canonical_part (fold_left resolve_step parts acc).
Proof.
  revert acc; induction parts as [|p parts IH]; simpl; intros acc Hp Ha;
    [assumption|].
  inversion Hp as [|? ? [Hk Hs] Hp']; subst.
  apply IH; [assumption|].
  rewrite resolve_step_spec.
  destruct (str_eqb p (lit "..")) eqn:E.
  - apply Forall_removelast; assumption.
  - apply Forall_app; split; [assumption|].
    constructor; [repeat split; assumption | constructor].
Qed.

Lemma resolve_no_dotdot (parts acc : list str) :
  Forall canonical_part parts ->
  fold_left resolve_step parts acc = acc ++ parts.
Proof.
  revert acc; induction parts as [|p parts IH]; simpl; intros acc H.
  - rewrite app_nil_r; reflexivity.
  - inversion H as [|? ? [_ [Hd _]] H']; subst.
    rewrite IH by assumption.
    unfold resolve_step. rewrite Hd. rewrite <- app_assoc. reflexivity.
Qed.

Lemma filter_keep_canonical (l : list str) :
  Forall canonical_part l -> filter keep_part l = l.
Proof.
  induction 1 as [|x l [Hk _] _ IH]; simpl; [reflexivity|].
  rewrite Hk, IH. reflexivity.
Qed.

Lemma normalize_path_assemble (self : VFS) (path : str) :
  normalize_path self path = assemble (resolved_of self path).
Proof. reflexivity. Qed.

Lemma resolved_of_canonical (self : VFS) (path : str) :
  Forall canonical_part (resolved_of self path).
Proof.
  unfold resolved_of. apply resolve_canonical; [|constructor].
  apply Forall_forall. intros p Hp. apply filter_In in Hp.
  destruct Hp as [Hin Hk]. split; [assumption|].
  pose proof (split_no_sep
    (if startswith path SLASH then path
     else rstrip (os_path_join (current_path self) path) SLASH) SLASH) as H.
  rewrite Forall_forall in H. apply H; assumption.
Qed.

Lemma canonical_no_slash (l : list str) :
  Forall canonical_part l -> Forall (fun seg => ~ In SLASH seg) l.
Proof. apply Forall_impl. intros a [_ [_ H]]; exact H. Qed.

(** Normalising an assembled canonical stack gives the stack back. *)
Lemma resolved_of_assemble (self : VFS) (l : list str) :
  Forall canonical_part l -> resolved_of self (assemble l) = l.
Proof.
  intros H. destruct l as [|x l]; [reflexivity|].
  unfold resolved_of, assemble.
  change (lit "/" ++ join (lit "/") (x :: l))
    with (SLASH :: join [SLASH] (x :: l)).
  cbn [startswith]. rewrite N.eqb_refl.
  cbn [split]. rewrite N.eqb_refl.
  rewrite split_join;
    [| discriminate | apply canonical_no_slash; exact H].
  change (filter keep_part ([] :: x :: l)) with (filter keep_part (x :: l)).
  rewrite filter_keep_canonical by assumption.
  rewrite resolve_no_dotdot by assumption. reflexivity.
Qed.

Lemma fold_resolve_spec (parts acc : list str) :
  fold_left resolve_step parts acc
  = fold_left (fun acc p =>
                 if str_eqb p (lit "..") then removelast acc else acc ++ [p])
              parts acc.
Proof.
  revert acc; induction parts as [|p parts IH]; simpl; intros acc;
    [reflexivity|].
  rewrite resolve_step_spec. apply IH.
Qed.

Lemma assemble_rooted (l : list str) : startswith (assemble l) SLASH = true.
Proof. destruct l; reflexivity. Qed.

(** C7.  [normalize_path] computes what section 4.1 describes (absolute
    when the path starts with a slash, else joined with the current
    directory; empty and "." segments dropped; ".." pops the last kept
    segment or does nothing at the root); "/a/b/../c" normalises to
    "/a/c" under every current directory, "../../x" under "/a" to "/x",
    and every result starts with a slash. *)
Theorem normalize_path_refines_spec :
  (forall self path,
      normalize_path self path = spec_normalize (current_path self) path)
  /\ (forall self, normalize_path self (lit "/a/b/../c") = lit "/a/c")
  /\ (forall r, normalize_path (mkVFS r (lit "/a")) (lit "../../x") = lit "/x")
  /\ (forall self path, startswith (normalize_path self path) SLASH = true).
Proof.
  split; [|split; [|split]].
  - intros self path. unfold normalize_path, spec_normalize, assemble.
    fold keep_part.
    destruct (startswith path SLASH) eqn:E.
    + rewrite fold_resolve_spec. reflexivity.
    + rewrite keep_split_rstrip, keep_split_join by assumption.
      rewrite fold_resolve_spec. reflexivity.
  - intros self. reflexivity.
  - intros r. reflexivity.
  - intros self path. rewrite normalize_path_assemble. apply assemble_rooted.
Qed.

(** C10.  [normalize_path] is idempotent: its result is assembled from
    segments that are non-empty, not ".", not ".." and free of slashes,
    and normalising it again, under any current directory, returns it
    unchanged. *)
Theorem normalize_path_idempotent (self self' : VFS) (path : str) :
  normalize_path self' (normalize_path self path) = normalize_path self path
  /\ exists segs,
       normalize_path self path = assemble segs
       /\ Forall canonical_part segs.
Proof.
  split.
  - rewrite (normalize_path_assemble self path).
    rewrite (normalize_path_assemble self').
    f_equal. apply resolved_of_assemble, resolved_of_canonical.
  - exists (resolved_of self path). split.
    + apply normalize_path_assemble.
    + apply resolved_of_canonical.
Qed.

(** ** Lookup *)

Lemma normalize_path_fixed (self self' : VFS) (path : str) :
  normalize_path self' (normalize_path self path) = normalize_path self path.
Proof.
  rewrite (normalize_path_assemble self path).
  rewrite (normalize_path_assemble self').
  rewrite resolved_of_assemble by apply resolved_of_canonical.
  reflexivity.
Qed.

Lemma get_node_descend (self : VFS) (path : str) :
  get_node self path = descend (node_ref self path) (root self).
Proof.
  unfold get_node, node_ref.
  destruct (str_eqb (normalize_path self path) (lit "/")); reflexivity.
Qed.

Lemma node_ref_normalized (self self' : VFS) (path : str) :
  node_ref self' (normalize_path self path) = node_ref self path.
Proof. unfold node_ref. rewrite normalize_path_fixed. reflexivity. Qed.

Lemma get_node_normalized (self self' : VFS) (path : str) :
  root self' = root self ->
  get_node self' (normalize_path self path) = get_node self path.
Proof.
  intros H. rewrite !get_node_descend, node_ref_normalized, H. reflexivity.
Qed.

(** ** Dicts *)

Lemma dict_get_set_same {V} (k : str) (v : V) (d : list (str * V)) :
  dict_get k (dict_set k v d) = Some v.
Proof.
  induction d as [|[k' v'] d IH]; simpl.
  - rewrite str_eqb_refl. reflexivity.
  - destruct (str_eqb k k') eqn:E; simpl.
    + rewrite str_eqb_refl. reflexivity.
    + rewrite E. exact IH.
Qed.

Lemma dict_get_set_other {V} (k k' : str) (v : V) (d : list (str * V)) :
  str_eqb k' k = false ->
  dict_get k' (dict_set k v d) = dict_get k' d.
Proof.
  intros Hne. induction d as [|[k0 v0] d IH]; simpl.
  - rewrite Hne. reflexivity.
  - destruct (str_eqb k k0) eqn:E; simpl.
    + apply str_eqb_eq in E. subst k0. rewrite Hne. reflexivity.
    + rewrite IH. reflexivity.
Qed.

Lemma dict_get_existsb {V} (k : str) (d : list (str * V)) :
  existsb (str_eqb k) (dict_keys d)
  = match dict_get k d with Some _ => true | None => false end.
Proof.
  induction d as [|[k' v'] d IH]; simpl; [reflexivity|].
  destruct (str_eqb k k'); simpl; [reflexivity | exact IH].
Qed.

Lemma dict_keys_set {V} (k : str) (v : V) (d : list (str * V)) :
  dict_keys (dict_set k v d) = add_key (dict_keys d) k.
Proof.
  unfold add_key. induction d as [|[k' v'] d IH]; simpl; [reflexivity|].
  destruct (str_eqb k k') eqn:E; simpl.
  - apply str_eqb_eq in E. subst k'. reflexivity.
  - rewrite IH. destruct (existsb (str_eqb k) (dict_keys d)); reflexivity.
Qed.

Lemma dict_keys_set_present {V} (k : str) (v v0 : V) (d : list (str * V)) :
  dict_get k d = Some v0 -> dict_keys (dict_set k v d) = dict_keys d.
Proof.
  intros H. rewrite dict_keys_set. unfold add_key.
  rewrite dict_get_existsb, H. reflexivity.
Qed.

(** ** [change_dir] *)

Lemma change_dir_root (self : VFS) (path : str) :
  root (snd (change_dir self path)) = root self.
Proof.
  unfold change_dir.
  destruct (get_node self (normalize_path self path)) as [node|];
    [destruct (type node)|]; reflexivity.
Qed.

(** C6.  A successful [change_dir] leaves [current_path] on a path that
    [get_node] resolves to a directory of the unchanged tree; a failed one
    (target missing, or a file) returns the session as it was. *)
Theorem change_dir_current_path (self : VFS) (path : str) :
  (exists target node,
      change_dir self path = (Moved target, mkVFS (root self) target)
      /\ get_node (mkVFS (root self) target) target = Some node
      /\ type node = TDir)
  \/ (change_dir self path = (NotFound path, self)
      /\ get_node self path = None)
  \/ (change_dir self path = (NotADirectory path, self)
      /\ exists node, get_node self path = Some node /\ type node = TFile).
Proof.
  unfold change_dir.
  rewrite (get_node_normalized self self path eq_refl).
  destruct (get_node self path) as [node|] eqn:E.
  - destruct (type node) eqn:T.
    + left. exists (normalize_path self path), node.
      split; [reflexivity|]. split; [|assumption].
      rewrite (get_node_normalized self
                 (mkVFS (root self) (normalize_path self path)) path eq_refl).
      assumption.
    + right; right. split; [reflexivity|]. exists node. auto.
  - right; left. auto.
Qed.

(** ** [list_dir] *)

Lemma list_item_render (node : Node) :
  List.map list_item (children node)
  = List.map render_entry (dir_entries node).
Proof.
  unfold dir_entries. rewrite map_map. apply map_ext.
  intros [name child]. reflexivity.
Qed.

Lemma list_dir_listing (self : VFS) (path : str) (node : Node) :
  get_node self path = Some node -> type node = TDir ->
  list_dir self path = Listing (render_listing (dir_entries node)).
Proof.
  intros E T. unfold list_dir.
  rewrite (get_node_normalized self self path eq_refl), E, T.
  rewrite list_item_render. unfold render_listing.
  destruct (dir_entries node); reflexivity.
Qed.

(** ** The importer *)

Lemma ensure_dir_get (part : str) (node : Node) :
  exists child, dict_get part (children (ensure_dir part node)) = Some child.
Proof.
  unfold ensure_dir. destruct (dict_get part (children node)) eqn:E.
  - eauto.
  - simpl. rewrite dict_get_set_same. eauto.
Qed.

Lemma ensure_dir_keys (part : str) (node : Node) :
  dict_keys (children (ensure_dir part node))
  = add_key (dict_keys (children node)) part.
Proof.
  unfold ensure_dir. destruct (dict_get part (children node)) eqn:E.
  - unfold add_key. rewrite dict_get_existsb, E. reflexivity.
  - simpl. apply dict_keys_set.
Qed.

Lemma import_parts_dir_step (part : str) (rest : list str) (info : ZipInfo)
      (node : Node) :
  at_file_part rest info = false ->
  import_parts (part :: rest) info node
  = match dict_get part (children (ensure_dir part node)) with
    | None => (ensure_dir part node, false)
    | Some child =>
        let '(child', ok) := import_parts rest info child in
        (set_children (ensure_dir part node)
           (dict_set part child' (children (ensure_dir part node))), ok)
    end.
Proof. intros H. cbn [import_parts]. rewrite H. reflexivity. Qed.

Lemma import_entries_app (a b : list ZipInfo) (node : Node) :
  import_entries (a ++ b) node
  = let '(node', ok) := import_entries a node in
    if ok then import_entries b node' else (node', false).
Proof.
  revert node; induction a as [|info a IH]; simpl; intros node.
  - destruct (import_entries b node) as [n ok]. destruct ok; reflexivity.
  - destruct (import_entry info node) as [n ok]. destruct ok; [apply IH|].
    reflexivity.
Qed.

(** A successful entry puts its first component into the children of the
    node it starts from, at the place [add_key] gives it. *)
Lemma import_parts_keys (parts : list str) (info : ZipInfo) (node : Node) :
  parts <> [] -> snd (import_parts parts info node) = true ->
  dict_keys (children (fst (import_parts parts info node)))
  = add_key (dict_keys (children node)) (hd [] parts).
Proof.
  destruct parts as [|part rest]; [congruence|]. intros _. simpl.
  destruct (at_file_part rest info).
  - destruct (read info); [|discriminate].
    destruct (bytes_decode (b64encode b)); [|discriminate].
    intros _. simpl. apply dict_keys_set.
  - destruct (ensure_dir_get part node) as [child Hc]. rewrite Hc.
    destruct (import_parts rest info child) as [child' ok]. simpl.
    intros _. rewrite (dict_keys_set_present _ _ _ _ Hc).
    apply ensure_dir_keys.
Qed.

Lemma import_entries_keys (infolist : list ZipInfo) (node : Node) :
  snd (import_entries infolist node) = true ->
  dict_keys (children (fst (import_entries infolist node)))
  = fold_left add_key (List.map first_part infolist)
              (dict_keys (children node)).
Proof.
  revert node; induction infolist as [|info l IH]; simpl; intros node H;
    [reflexivity|].
  destruct (import_entry info node) as [n ok] eqn:E.
  destruct ok; [|discriminate].
  rewrite IH by assumption. f_equal.
  unfold import_entry in E.
  pose proof (import_parts_keys
                (split (rstrip (filename info) SLASH) SLASH) info node
                (split_not_nil _ _)) as K.
  rewrite E in K. apply K. reflexivity.
Qed.

(** Importing one entry never reorders or drops a name in a directory
    that is still there afterwards: the names it had keep their places,
    a new name comes after them. *)
Lemma import_parts_append_only (parts : list str) (info : ZipInfo) :
  forall (node : Node) (q : list str) (n n' : Node),
    descend q node = Some n ->
    descend q (fst (import_parts parts info node)) = Some n' ->
    type n' = TDir ->
    exists extra, dict_keys (children n') = dict_keys (children n) ++ extra.
Proof.
  assert (Same : forall (a b : Node),
             Some a = Some b ->
             exists extra,
               dict_keys (children b) = dict_keys (children a) ++ extra).
  { intros a b H. inversion H; subst. exists []. rewrite app_nil_r.
    reflexivity. }
  induction parts as [|part rest IH]; intros node q n n' Hq Hq' T.
  - simpl in Hq'. apply Same. congruence.
  - destruct (at_file_part rest info) eqn:F.
    + cbn [import_parts] in Hq'. rewrite F in Hq'.
      destruct (read info) as [b|]; [|apply Same; simpl in Hq'; congruence].
      destruct (bytes_decode (b64encode b)) as [text|];
        [|apply Same; simpl in Hq'; congruence].
      cbn [fst] in Hq'. destruct q as [|k q'].
      * simpl in Hq, Hq'. inversion Hq; inversion Hq'; subst. simpl.
        rewrite dict_keys_set. unfold add_key.
        destruct (existsb (str_eqb part) (dict_keys (children n))).
        -- exists []. rewrite app_nil_r. reflexivity.
        -- exists [part]. reflexivity.
      * simpl in Hq, Hq'. destruct (str_eqb k part) eqn:Ek.
        -- apply str_eqb_eq in Ek. subst k.
           rewrite dict_get_set_same in Hq'.
           destruct q' as [|k2 q2]; simpl in Hq'.
           ++ inversion Hq'; subst. discriminate.
           ++ discriminate.
        -- rewrite dict_get_set_other in Hq' by assumption.
           apply Same. congruence.
    + rewrite (import_parts_dir_step part rest info node F) in Hq'.
      destruct (ensure_dir_get part node) as [child Hc]. rewrite Hc in Hq'.
      pose proof (IH child) as IHc.
      destruct (import_parts rest info child) as [child' ok].
      cbn [fst] in Hq', IHc. destruct q as [|k q'].
      * simpl in Hq, Hq'. inversion Hq; inversion Hq'; subst. simpl.
        rewrite (dict_keys_set_present _ _ _ _ Hc), ensure_dir_keys.
        unfold add_key.
        destruct (existsb (str_eqb part) (dict_keys (children n))).
        -- exists []. rewrite app_nil_r. reflexivity.
        -- exists [part]. reflexivity.
      * simpl in Hq, Hq'. destruct (str_eqb k part) eqn:Ek.
        -- apply str_eqb_eq in Ek. subst k.
           rewrite dict_get_set_same in Hq'.
           unfold ensure_dir in Hc.
           destruct (dict_get part (children node)) as [c0|] eqn:E0;
             [|discriminate].
           assert (c0 = child) by congruence. subst c0.
           eapply IHc; eassumption.
        -- rewrite dict_get_set_other in Hq' by assumption.
           unfold ensure_dir in Hq'.
           destruct (dict_get part (children node)) as [c0|] eqn:E0.
           ++ apply Same. congruence.
           ++ simpl in Hq'. rewrite dict_get_set_other in Hq' by assumption.
              apply Same. congruence.
Qed.

(** C8.  [list_dir] answers [NotFound] when the path resolves to nothing
    and [NotADirectory] when it resolves to a file; otherwise its text is
    the rendering of one (name, kind, permissions) triple per child of the
    directory, in the order the children dict holds them.  That order is
    the insertion order of the import: after a successful import the names
    under the root are the first path components of the entries in order
    of first appearance, and at any depth the import of an entry leaves
    the names of a surviving directory in place and puts a new name after
    them. *)
Theorem list_dir_children_in_insertion_order :
  (forall self path,
      match get_node self path with
      | None => list_dir self path = NotFound path
      | Some node =>
          match type node with
          | TFile => list_dir self path = NotADirectory path
          | TDir =>
              list_dir self path = Listing (render_listing (dir_entries node))
              /\ List.map (fun e => fst (fst e)) (dir_entries node)
                 = dict_keys (children node)
          end
      end)
  /\ (forall self infolist,
         fst (load_from_zip self (Some infolist)) = true ->
         dict_keys (children (root (snd (load_from_zip self (Some infolist)))))
         = fold_left add_key (List.map first_part infolist)
                     (dict_keys (children (root self))))
  /\ (forall info node q n n',
         descend q node = Some n ->
         descend q (fst (import_entry info node)) = Some n' ->
         type n' = TDir ->
         exists extra,
           dict_keys (children n') = dict_keys (children n) ++ extra).
Proof.
  split; [|split].
  - intros self path.
    destruct (get_node self path) as [node|] eqn:E.
    + destruct (type node) eqn:T.
      * split; [apply list_dir_listing; assumption|].
        unfold dir_entries, dict_keys. rewrite map_map. apply map_ext.
        intros [name child]. reflexivity.
      * unfold list_dir.
        rewrite (get_node_normalized self self path eq_refl), E, T.
        reflexivity.
    + unfold list_dir.
      rewrite (get_node_normalized self self path eq_refl), E. reflexivity.
  - intros self infolist. unfold load_from_zip.
    pose proof (import_entries_keys infolist (root self)) as K.
    destruct (import_entries infolist (root self)) as [r ok]. simpl in *.
    exact K.
  - intros info node q n n'. unfold import_entry.
    apply import_parts_append_only.
Qed.

Lemma list_dir_children_in_insertion_order_witness :
  fst (load_from_zip VFS_init (Some [entry_docs; entry_readme; entry_blob]))
  = true
  /\ dict_keys (children (root sample_vfs)) = [lit "docs"; lit "b.bin"]
  /\ list_dir sample_vfs (lit "/") = Listing (lit "d755 docs" ++ [10] ++ lit "-644 b.bin").
Proof.
  split; [reflexivity|]. split.
  - unfold sample_vfs.
    rewrite (proj1 (proj2 list_dir_children_in_insertion_order) VFS_init
               [entry_docs; entry_readme; entry_blob] eq_refl).
    reflexivity.
  - pose proof (proj1 list_dir_children_in_insertion_order sample_vfs (lit "/"))
      as H.
    change (get_node sample_vfs (lit "/")) with (Some (root sample_vfs)) in H.
    change (type (root sample_vfs)) with TDir in H. cbv iota in H.
    destruct H as [H _]. rewrite H. reflexivity.
Defined.

(** ** [chmod] *)

Lemma shallow_set_children_present (node : Node) (k : str) (v v0 : Node) :
  dict_get k (children node) = Some v0 ->
  shallow (set_children node (dict_set k v (children node))) = shallow node.
Proof.
  intros H. unfold shallow. simpl.
  rewrite (dict_keys_set_present _ _ _ _ H). reflexivity.
Qed.

Lemma set_permissions_at_target (parts : list str) (m : Z) (node n : Node) :
  descend parts node = Some n ->
  descend parts (set_permissions_at parts m node)
  = Some (set_permissions n m).
Proof.
  revert node; induction parts as [|p rest IH]; simpl; intros node H.
  - inversion H; reflexivity.
  - destruct (dict_get p (children node)) as [child|] eqn:E; [|discriminate].
    simpl. rewrite dict_get_set_same. apply IH. assumption.
Qed.

Lemma set_permissions_at_shallow (parts : list str) (m : Z) (node n : Node) :
  descend parts node = Some n ->
  forall q, q <> parts ->
    option_map shallow (descend q (set_permissions_at parts m node))
    = option_map shallow (descend q node).
Proof.
  revert node; induction parts as [|p rest IH]; simpl; intros node H q Hq.
  - destruct q as [|k q]; [congruence|]. reflexivity.
  - destruct (dict_get p (children node)) as [child|] eqn:E; [|discriminate].
    destruct q as [|k q].
    + simpl. f_equal. eapply shallow_set_children_present; eassumption.
    + simpl. destruct (str_eqb k p) eqn:Ek.
      * apply str_eqb_eq in Ek. subst k.
        rewrite dict_get_set_same, E. apply IH; [assumption|congruence].
      * rewrite dict_get_set_other by assumption. reflexivity.
Qed.

Lemma set_permissions_at_off_path (parts : list str) (m : Z) (node n : Node) :
  descend parts node = Some n ->
  forall q, ~ is_prefix q parts ->
    descend q (set_permissions_at parts m node) = descend q node.
Proof.
  revert node; induction parts as [|p rest IH]; simpl; intros node H q Hq.
  - destruct q as [|k q]; [|reflexivity].
    exfalso; apply Hq; exists []; reflexivity.
  - destruct (dict_get p (children node)) as [child|] eqn:E; [|discriminate].
    destruct q as [|k q].
    + exfalso; apply Hq; exists (p :: rest); reflexivity.
    + simpl. destruct (str_eqb k p) eqn:Ek.
      * apply str_eqb_eq in Ek. subst k.
        rewrite dict_get_set_same, E. apply IH; [assumption|].
        intros [r Hr]. apply Hq. exists r. simpl. congruence.
      * rewrite dict_get_set_other by assumption. reflexivity.
Qed.

(** What [chmod] does once the path resolves and the mode is accepted. *)
Lemma chmod_accepted (self : VFS) (mode : Mode) (path : str) (node : Node)
      (m : Z) :
  get_node self path = Some node -> mode_value mode = Some m ->
  chmod self mode path
  = (ModeSet m path,
     mkVFS (set_permissions_at (node_ref self path) m (root self))
           (current_path self)).
Proof.
  intros E M. unfold chmod.
  rewrite (get_node_normalized self self path eq_refl), E.
  rewrite node_ref_normalized.
  destruct mode as [s|z]; simpl in M.
  - rewrite M. reflexivity.
  - inversion M; reflexivity.
Qed.

Lemma chmod_rejected (self : VFS) (s : str) (path : str) (node : Node) :
  get_node self path = Some node -> int_base8 s = None ->
  chmod self (MStr s) path = (InvalidMode s, self).
Proof.
  intros E M. unfold chmod.
  rewrite (get_node_normalized self self path eq_refl), E, M. reflexivity.
Qed.

Lemma chmod_missing (self : VFS) (mode : Mode) (path : str) :
  get_node self path = None -> chmod self mode path = (NotFound path, self).
Proof.
  intros E. unfold chmod.
  rewrite (get_node_normalized self self path eq_refl), E. reflexivity.
Qed.

(** C9.  An accepted [chmod] rewrites the permissions of the node the
    path resolves to and nothing else: that node keeps its type, children
    and content; every node at another place keeps its type, child names,
    content and permissions; every subtree off the path from the root to
    the target is identical; [current_path] is unchanged. *)
Theorem chmod_frame (self self' : VFS) (mode : Mode) (path p : str) (m : Z) :
  chmod self mode path = (ModeSet m p, self') ->
  current_path self' = current_path self
  /\ exists node,
       descend (node_ref self path) (root self) = Some node
       /\ descend (node_ref self path) (root self')
          = Some (mkNode (type node) (children node) (content node) (Some m))
       /\ (forall q, q <> node_ref self path ->
             option_map shallow (descend q (root self'))
             = option_map shallow (descend q (root self)))
       /\ (forall q, ~ is_prefix q (node_ref self path) ->
             descend q (root self') = descend q (root self)).
Proof.
  intros H.
  destruct (get_node self path) as [node|] eqn:E.
  - destruct (mode_value mode) as [m'|] eqn:M.
    + rewrite (chmod_accepted self mode path node m' E M) in H.
      inversion H; subst; clear H. simpl.
      split; [reflexivity|]. exists node.
      rewrite get_node_descend in E.
      split; [assumption|]. split; [|split].
      * apply (set_permissions_at_target _ _ _ _ E).
      * apply (set_permissions_at_shallow _ _ _ _ E).
      * apply (set_permissions_at_off_path _ _ _ _ E).
    + destruct mode as [s|z]; simpl in M; [|discriminate].
      rewrite (chmod_rejected self s path node E M) in H. discriminate.
  - rewrite (chmod_missing self mode path E) in H. discriminate.
Qed.

Lemma chmod_frame_witness :
  chmod sample_vfs (MStr (lit "700")) (lit "docs/readme.txt")
  = (ModeSet 448 (lit "docs/readme.txt"),
     snd (chmod sample_vfs (MStr (lit "700")) (lit "docs/readme.txt")))
  /\ current_path
       (snd (chmod sample_vfs (MStr (lit "700")) (lit "docs/readme.txt")))
     = current_path sample_vfs.
Proof.
  split; [reflexivity|].
  exact (proj1 (chmod_frame sample_vfs _ (MStr (lit "700"))
                  (lit "docs/readme.txt") _ 448%Z eq_refl)).
Defined.

(** C3, as the code has it.  On a path that resolves, [chmod] answers
    [InvalidMode] exactly when the mode is a string that [int(mode, 8)]
    rejects, and then returns the session untouched; every value the mode
    parses to is stored as it is, whatever its size. *)
Theorem chmod_invalid_mode (self : VFS) (mode : Mode) (path : str)
        (node : Node) :
  get_node self path = Some node ->
  (forall s, fst (chmod self mode path) = InvalidMode s
             <-> mode = MStr s /\ int_base8 s = None)
  /\ (forall s, fst (chmod self mode path) = InvalidMode s ->
                snd (chmod self mode path) = self)
  /\ (forall m, mode_value mode = Some m ->
                fst (chmod self mode path) = ModeSet m path
                /\ option_map permissions
                     (get_node (snd (chmod self mode path)) path)
                   = Some (Some m)).
Proof.
  intros E.
  destruct (mode_value mode) as [m'|] eqn:M.
  - rewrite (chmod_accepted self mode path node m' E M). simpl.
    split; [|split].
    + intros s. split; [discriminate|].
      intros [-> Hs]. simpl in M. congruence.
    + discriminate.
    + intros m Hm. inversion Hm; subst m'. split; [reflexivity|].
      rewrite get_node_descend. unfold node_ref at 1. simpl.
      fold (node_ref self path).
      rewrite get_node_descend in E.
      rewrite (set_permissions_at_target _ _ _ _ E). reflexivity.
  - destruct mode as [s0|z]; simpl in M; [|discriminate].
    rewrite (chmod_rejected self s0 path node E M). simpl.
    split; [|split].
    + intros s. split.
      * intros H. inversion H; subst. auto.
      * intros [H _]. inversion H; reflexivity.
    + reflexivity.
    + discriminate.
Qed.

Lemma chmod_invalid_mode_witness :
  get_node sample_vfs (lit "/b.bin")
  = Some (mkNode TFile [] (Some (lit "/w==")) (Some 420%Z))
  /\ fst (chmod sample_vfs (MStr (lit "abc")) (lit "/b.bin"))
     = InvalidMode (lit "abc")
  /\ snd (chmod sample_vfs (MStr (lit "abc")) (lit "/b.bin")) = sample_vfs.
Proof.
  split; [reflexivity|].
  pose proof (chmod_invalid_mode sample_vfs (MStr (lit "abc")) (lit "/b.bin")
                _ eq_refl) as [H1 [H2 _]].
  assert (H : fst (chmod sample_vfs (MStr (lit "abc")) (lit "/b.bin"))
              = InvalidMode (lit "abc")).
  { apply H1. split; reflexivity. }
  split; [exact H | exact (H2 _ H)].
Defined.

(** C3 as stated fails: "7777" parses to 0o7777, outside 0..0o777, on an
    existing file, and [chmod] stores it instead of answering
    [InvalidMode]. *)
Lemma chmod_out_of_range_accepted :
  get_node sample_vfs (lit "/b.bin") <> None
  /\ int_base8 (lit "7777") = Some 4095%Z
  /\ (4095 > 511)%Z
  /\ fst (chmod sample_vfs (MStr (lit "7777")) (lit "/b.bin"))
     <> InvalidMode (lit "7777")
  /\ option_map permissions
       (get_node (snd (chmod sample_vfs (MStr (lit "7777")) (lit "/b.bin")))
                 (lit "/b.bin"))
     = Some (Some 4095%Z).
Proof.
  split; [discriminate|]. split; [reflexivity|]. split; [reflexivity|].
  split; [discriminate | reflexivity].
Qed.

(** [int] reads the decimal digits and the white space of every script:
    the Arabic-Indic "755" is 0o755, and the Arabic-Indic "7777" is out
    of range like its ASCII form. *)
Lemma int_base8_other_scripts :
  int_base8 [1639; 1637; 1637] = Some 493%Z
  /\ int_base8 [1639; 1639; 1639; 1639] = Some 4095%Z
  /\ int_base8 [8195; 65303; 65301; 65301; 160] = Some 493%Z
  /\ int_base8 [1784] = None
  /\ call_in_range (CallChmod (MStr [1639; 1639; 1639; 1639]) (lit "/b.bin"))
     = false
  /\ option_map permissions
       (get_node (snd (chmod sample_vfs (MStr [1639; 1637; 1637])
                             (lit "/b.bin")))
                 (lit "/b.bin"))
     = Some (Some 493%Z).
Proof. repeat split; reflexivity. Qed.

(** C5, as the code has it.  [chmod] resolves the path before it looks at
    the mode: on a path that resolves to nothing it answers [NotFound],
    whatever the mode, and leaves the session untouched. *)
Theorem chmod_resolves_before_parsing (self : VFS) (mode : Mode)
        (path : str) :
  get_node self path = None ->
  chmod self mode path = (NotFound path, self)
  /\ forall s, fst (chmod self mode path) <> InvalidMode s.
Proof.
  intros E. rewrite (chmod_missing self mode path E).
  split; [reflexivity | discriminate].
Qed.

Lemma chmod_resolves_before_parsing_witness :
  get_node VFS_init (lit "/nonexistent") = None
  /\ chmod VFS_init (MStr (lit "abc")) (lit "/nonexistent")
     = (NotFound (lit "/nonexistent"), VFS_init).
Proof.
  split; [reflexivity|].
  exact (proj1 (chmod_resolves_before_parsing VFS_init (MStr (lit "abc"))
                  (lit "/nonexistent") eq_refl)).
Defined.

(** C5 as stated fails: an unparsable mode on a path that does not
    resolve yields [NotFound], not [InvalidMode]. *)
Lemma chmod_unparsable_mode_missing_path :
  int_base8 (lit "abc") = None
  /\ get_node VFS_init (lit "/nonexistent") = None
  /\ fst (chmod VFS_init (MStr (lit "abc")) (lit "/nonexistent"))
     = NotFound (lit "/nonexistent")
  /\ fst (chmod VFS_init (MStr (lit "abc")) (lit "/nonexistent"))
     <> InvalidMode (lit "abc").
Proof.
  split; [reflexivity|]. split; [reflexivity|]. split; [reflexivity|].
  discriminate.
Qed.

(** ** Permissions in range *)

Lemma perms_ok_unfold (n : Node) :
  perms_ok n
  = perm_in_range (permissions n)
    && forallb (fun kv => perms_ok (snd kv)) (children n).
Proof. destruct n; reflexivity. Qed.

Lemma perms_ok_children_set (k : str) (v : Node) (d : list (str * Node)) :
  forallb (fun kv => perms_ok (snd kv)) d = true ->
  perms_ok v = true ->
  forallb (fun kv => perms_ok (snd kv)) (dict_set k v d) = true.
Proof.
  intros Hd Hv. induction d as [|[k' v'] d IH]; simpl in *.
  - rewrite Hv. reflexivity.
  - apply andb_true_iff in Hd. destruct Hd as [H1 H2].
    destruct (str_eqb k k'); simpl.
    + rewrite Hv, H2. reflexivity.
    + rewrite H1, IH by assumption. reflexivity.
Qed.

Lemma perms_ok_children_get (k : str) (c : Node) (d : list (str * Node)) :
  forallb (fun kv => perms_ok (snd kv)) d = true ->
  dict_get k d = Some c -> perms_ok c = true.
Proof.
  induction d as [|[k' v'] d IH]; simpl; [discriminate|].
  intros Hd. apply andb_true_iff in Hd. destruct Hd as [H1 H2].
  destruct (str_eqb k k').
  - intros H; inversion H; subst; assumption.
  - apply IH; assumption.
Qed.

Lemma perms_ok_set_child (node : Node) (k : str) (v : Node) :
  perms_ok node = true -> perms_ok v = true ->
  perms_ok (set_children node (dict_set k v (children node))) = true.
Proof.
  intros Hn Hv. rewrite perms_ok_unfold in Hn |- *.
  apply andb_true_iff in Hn. destruct Hn as [H1 H2]. simpl.
  rewrite H1, perms_ok_children_set by assumption. reflexivity.
Qed.

Lemma perms_ok_child (node : Node) (k : str) (c : Node) :
  perms_ok node = true -> dict_get k (children node) = Some c ->
  perms_ok c = true.
Proof.
  intros Hn. rewrite perms_ok_unfold in Hn.
  apply andb_true_iff in Hn. destruct Hn as [_ H2].
  apply perms_ok_children_get; assumption.
Qed.

Lemma perms_ok_ensure_dir (part : str) (node : Node) :
  perms_ok node = true -> perms_ok (ensure_dir part node) = true.
Proof.
  intros H. unfold ensure_dir.
  destruct (dict_get part (children node)); [assumption|].
  apply perms_ok_set_child; [assumption | reflexivity].
Qed.

Lemma perms_ok_import_parts (parts : list str) (info : ZipInfo) (node : Node) :
  perms_ok node = true -> perms_ok (fst (import_parts parts info node)) = true.
Proof.
  revert node; induction parts as [|part rest IH]; simpl; intros node H;
    [assumption|].
  destruct (at_file_part rest info).
  - destruct (read info); [|assumption].
    destruct (bytes_decode (b64encode b)); [|assumption].
    simpl. apply perms_ok_set_child; [assumption | reflexivity].
  - pose proof (perms_ok_ensure_dir part node H) as H1.
    destruct (dict_get part (children (ensure_dir part node))) as [child|] eqn:E;
      [|assumption].
    pose proof (IH child (perms_ok_child _ _ _ H1 E)) as Hc.
    destruct (import_parts rest info child) as [child' ok]. simpl in *.
    apply perms_ok_set_child; assumption.
Qed.

Lemma perms_ok_import_entries (infolist : list ZipInfo) (node : Node) :
  perms_ok node = true ->
  perms_ok (fst (import_entries infolist node)) = true.
Proof.
  revert node; induction infolist as [|info l IH]; simpl; intros node H;
    [assumption|].
  pose proof (perms_ok_import_parts (entry_parts info) info node H) as H1.
  unfold import_entry. fold (entry_parts info).
  destruct (import_parts (entry_parts info) info node) as [n ok]. simpl in H1.
  destruct ok; [apply IH|]; assumption.
Qed.

Lemma perms_ok_load_from_zip (self : VFS) (zf : option (list ZipInfo)) :
  perms_ok (root self) = true ->
  perms_ok (root (snd (load_from_zip self zf))) = true.
Proof.
  intros H. destruct zf as [infolist|]; simpl; [|assumption].
  pose proof (perms_ok_import_entries infolist (root self) H) as H1.
  destruct (import_entries infolist (root self)); assumption.
Qed.

Lemma perms_ok_set_permissions_at (parts : list str) (m : Z) (node : Node) :
  (0 <=? m)%Z && (m <=? 511)%Z = true ->
  perms_ok node = true ->
  perms_ok (set_permissions_at parts m node) = true.
Proof.
  intros Hm. revert node; induction parts as [|p rest IH]; simpl; intros node H.
  - rewrite perms_ok_unfold in H.
    apply andb_true_iff in H. destruct H as [_ H2].
    unfold set_permissions. cbn [perms_ok perm_in_range].
    rewrite Hm, H2. reflexivity.
  - destruct (dict_get p (children node)) as [child|] eqn:E; [|assumption].
    apply perms_ok_set_child; [assumption|].
    apply IH. eapply perms_ok_child; eassumption.
Qed.

Lemma perms_ok_call (self : VFS) (c : Call) :
  call_in_range c = true -> perms_ok (root self) = true ->
  perms_ok (root (snd (call self c))) = true.
Proof.
  intros Hc H. destruct c as [p|p|p|mode p]; simpl; try assumption.
  - rewrite change_dir_root. assumption.
  - simpl in Hc.
    destruct (get_node self p) as [node|] eqn:E.
    + destruct (mode_value mode) as [m|] eqn:M.
      * rewrite (chmod_accepted self mode p node m E M). simpl.
        apply perms_ok_set_permissions_at; assumption.
      * destruct mode as [s|z]; simpl in M; [|discriminate].
        rewrite (chmod_rejected self s p node E M). assumption.
    + rewrite (chmod_missing self mode p E). assumption.
Qed.

Lemma perms_ok_run (cs : list Call) (self : VFS) :
  forallb call_in_range cs = true -> perms_ok (root self) = true ->
  perms_ok (root (run self cs)) = true.
Proof.
  unfold run. revert self; induction cs as [|c cs IH]; simpl; intros self Hc H;
    [assumption|].
  apply andb_true_iff in Hc. destruct Hc as [H1 H2].
  apply IH; [assumption|]. apply perms_ok_call; assumption.
Qed.

(** C4, as the code has it.  After an import into a fresh session,
    followed by any calls of the four commands in which every [chmod]
    either is refused or stores a value in 0..0o777, every permissions
    key in the tree holds a value in 0..0o777. *)
Theorem permissions_in_range (zf : option (list ZipInfo)) (cs : list Call) :
  forallb call_in_range cs = true ->
  perms_ok (root (run (snd (load_from_zip VFS_init zf)) cs)) = true.
Proof.
  intros H. apply perms_ok_run; [assumption|].
  apply perms_ok_load_from_zip. reflexivity.
Qed.

Lemma permissions_in_range_witness :
  perms_ok
    (root (run (snd (load_from_zip VFS_init
                       (Some [entry_docs; entry_readme; entry_blob])))
               [CallList (lit "docs"); CallChangeDir (lit "docs");
                CallChmod (MStr (lit "700")) (lit "readme.txt");
                CallChmod (MStr (lit "abc")) (lit "readme.txt");
                CallCat (lit "readme.txt")]))
  = true.
Proof.
  apply (permissions_in_range
           (Some [entry_docs; entry_readme; entry_blob])
           [CallList (lit "docs"); CallChangeDir (lit "docs");
            CallChmod (MStr (lit "700")) (lit "readme.txt");
            CallChmod (MStr (lit "abc")) (lit "readme.txt");
            CallCat (lit "readme.txt")]).
  reflexivity.
Defined.

(** C4 as stated fails: one [chmod] with the mode "7777" after an import
    leaves a node whose permissions are 0o7777. *)
Lemma permissions_out_of_range :
  perms_ok
    (root (run (snd (load_from_zip VFS_init
                       (Some [entry_docs; entry_readme; entry_blob])))
               [CallChmod (MStr (lit "7777")) (lit "/b.bin")]))
  = false
  /\ option_map permissions
       (get_node
          (run (snd (load_from_zip VFS_init
                       (Some [entry_docs; entry_readme; entry_blob])))
               [CallChmod (MStr (lit "7777")) (lit "/b.bin")])
          (lit "/b.bin"))
     = Some (Some 4095%Z).
Proof. split; reflexivity. Qed.

(** ** A read that fails during the import *)

Lemma import_parts_read_fails (parts : list str) (info : ZipInfo)
      (node : Node) :
  parts <> [] -> is_dir info = false -> read info = None ->
  import_parts parts info node
  = (fst (import_parts (removelast parts) (as_directory info) node), false).
Proof.
  intros Hne Hd Hr. revert node Hne.
  induction parts as [|part rest IH]; intros node Hne; [congruence|].
  destruct rest as [|q r].
  - simpl. rewrite Hd, Hr. reflexivity.
  - change (removelast (part :: q :: r)) with (part :: removelast (q :: r)).
    rewrite (import_parts_dir_step part (q :: r)) by reflexivity.
    rewrite (import_parts_dir_step part (removelast (q :: r)))
      by (destruct (removelast (q :: r)); reflexivity).
    destruct (dict_get part (children (ensure_dir part node))) as [child|];
      [|reflexivity].
    rewrite (IH child) by discriminate.
    destruct (import_parts (removelast (q :: r)) (as_directory info) child).
    reflexivity.
Qed.

(** C2, as the code has it.  When the read of a file entry raises after
    the entries before it were imported, [load_from_zip] returns [False]
    and the tree keeps what was written until then: the entries before the
    failing one, and the parent directories of the failing one; the
    entries after it are not looked at.  When the archive cannot be opened
    at all the session is untouched. *)
Theorem load_from_zip_partial (self : VFS) (done rest : list ZipInfo)
        (bad : ZipInfo) :
  fst (load_from_zip self (Some done)) = true ->
  is_dir bad = false -> read bad = None ->
  load_from_zip self (Some (done ++ bad :: rest))
  = (false,
     mkVFS (fst (import_parts (removelast (entry_parts bad)) (as_directory bad)
                   (root (snd (load_from_zip self (Some done))))))
           (current_path self))
  /\ load_from_zip self None = (false, self).
Proof.
  intros Hok Hd Hr. split; [|reflexivity].
  unfold load_from_zip in *. rewrite import_entries_app.
  destruct (import_entries done (root self)) as [root1 ok]. simpl in Hok.
  subst ok. simpl.
  unfold import_entry. fold (entry_parts bad).
  rewrite (import_parts_read_fails (entry_parts bad) bad root1
             (split_not_nil _ _) Hd Hr).
  reflexivity.
Qed.

Lemma load_from_zip_partial_witness :
  load_from_zip VFS_init (Some ([entry_docs; entry_readme]
                                  ++ entry_broken :: [entry_blob]))
  = (false,
     mkVFS (mkNode TDir
              [(lit "docs",
                mkNode TDir
                  [(lit "readme.txt",
                    mkNode TFile [] (Some (lit "aGVsbG8=")) (Some 420%Z))]
                  None (Some 493%Z));
               (lit "c", mkNode TDir [] None (Some 493%Z))]
              None None)
           (lit "/")).
Proof.
  exact (proj1 (load_from_zip_partial VFS_init [entry_docs; entry_readme]
                  [entry_blob] entry_broken eq_refl eq_refl eq_refl)).
Defined.

(** C2 as stated fails: the import below reports failure at its second
    entry, yet the file of the first entry, absent before the call, can be
    looked up afterwards. *)
Lemma load_from_zip_leaves_prefix :
  fst (load_from_zip VFS_init (Some [entry_readme; entry_broken])) = false
  /\ get_node VFS_init (lit "/docs/readme.txt") = None
  /\ get_node (snd (load_from_zip VFS_init (Some [entry_readme; entry_broken])))
              (lit "/docs/readme.txt")
     = Some (mkNode TFile [] (Some (lit "aGVsbG8=")) (Some 420%Z))
  /\ root (snd (load_from_zip VFS_init (Some [entry_readme; entry_broken])))
     <> root VFS_init.
Proof.
  split; [reflexivity|]. split; [reflexivity|]. split; [reflexivity|].
  discriminate.
Qed.

(** ** Base64 and UTF-8 *)


Lemma to_N_byte_of_N (n : N) : n < 256 -> Byte.to_N (byte_of_N n) = n.
Proof.
  intros H. unfold byte_of_N. rewrite N.mod_small by assumption.
  destruct (Byte.of_N n) as [b|] eqn:E.
  - apply Byte.to_of_N. assumption.
  - apply Byte.of_N_None_iff in E. lia.
Qed.














Lemma list_ind3 {A} (P : list A -> Prop) :
  P [] -> (forall a, P [a]) -> (forall a b, P [a; b]) ->
  (forall a b c l, P l -> P (a :: b :: c :: l)) ->
  forall l, P l.
Proof.
  intros H0 H1 H2 H3.
  fix rec 1.
  intros [|a [|b [|c l]]];
    [apply H0 | apply H1 | apply H2 | apply H3; apply rec].
Qed.




Lemma nth_forallb {A} (P : A -> bool) (l : list A) (d : A) (n : nat) :
  forallb P l = true -> P d = true -> P (nth n l d) = true.
Proof.
  revert n; induction l as [|x l IH]; intros [|n]; simpl; intros H Hd; auto.
  - apply andb_true_iff in H. tauto.
  - apply andb_true_iff in H. apply IH; tauto.
Qed.

Lemma table_b2a_base64_ascii (i : N) :
  (Byte.to_N (table_b2a_base64 i) <? 128) = true.
Proof.
  unfold table_b2a_base64.
  pose proof (nth_forallb (fun c => c <? 128) b64_alphabet BASE64_PAD
                (N.to_nat i) eq_refl eq_refl) as H.
  cbv beta in H. pose proof H as H'. apply N.ltb_lt in H'.
  rewrite to_N_byte_of_N by lia. exact H.
Qed.

Lemma b64text_ascii (b : bytes) : forallb (fun c => c <? 128) (b64text b) = true.
Proof.
  induction b as [|b0|b0 b1|b0 b1 b2 rest IH] using list_ind3;
    unfold b64text in *; cbn [b64encode List.map forallb];
    rewrite ?table_b2a_base64_ascii, ?IH; reflexivity.
Qed.

Lemma utf8_decode_ascii (l : list N) :
  forallb (fun c => c <? 128) l = true -> utf8_decode l = Some l.
Proof.
  induction l as [|c l IH]; cbn [forallb utf8_decode]; [reflexivity|].
  intros H. apply andb_true_iff in H. destruct H as [H1 H2].
  rewrite H1, (IH H2). reflexivity.
Qed.

(** The text the importer stores is the base64 form, character by
    character. *)
Lemma stored_text (b : bytes) : bytes_decode (b64encode b) = Some (b64text b).
Proof. apply utf8_decode_ascii, b64text_ascii. Qed.


(** ** Imported content and [cat_file] *)

Lemma node_ref_current (a b : VFS) (path : str) :
  current_path a = current_path b -> node_ref a path = node_ref b path.
Proof.
  intros H. unfold node_ref, normalize_path. rewrite H. reflexivity.
Qed.

Lemma import_parts_file_stored (parts : list str) (info : ZipInfo)
      (b : bytes) (node : Node) :
  parts <> [] -> is_dir info = false -> read info = Some b ->
  snd (import_parts parts info node) = true
  /\ descend parts (fst (import_parts parts info node))
     = Some (new_file (b64text b)).
Proof.
  intros Hne Hd Hr. revert node Hne.
  induction parts as [|part rest IH]; intros node Hne; [congruence|].
  destruct rest as [|q r].
  - cbn [import_parts at_file_part]. rewrite Hd, Hr, stored_text.
    split; [reflexivity|]. cbn [negb fst descend]. simpl children.
    rewrite dict_get_set_same. reflexivity.
  - rewrite (import_parts_dir_step part (q :: r)) by reflexivity.
    destruct (ensure_dir_get part node) as [child Hc]. rewrite Hc.
    destruct (IH child) as [H1 H2]; [discriminate|].
    destruct (import_parts (q :: r) info child) as [child' ok].
    simpl in H1, H2. subst ok. split; [reflexivity|].
    cbn [fst]. change (descend (part :: q :: r) ?n)
      with (match dict_get part (children n) with
            | Some c => descend (q :: r) c
            | None => None
            end).
    simpl children. rewrite dict_get_set_same. exact H2.
Qed.



(** * Further properties of the code *)

(** ** [chmod]: repetition and order *)

Lemma dict_set_set {V} (k : str) (v v' : V) (d : list (str * V)) :
  dict_set k v' (dict_set k v d) = dict_set k v' d.
Proof.
  induction d as [|[k0 v0] d IH]; simpl.
  - rewrite str_eqb_refl. reflexivity.
  - destruct (str_eqb k k0) eqn:E; simpl.
    + rewrite str_eqb_refl. reflexivity.
    + rewrite E, IH. reflexivity.
Qed.

Lemma dict_set_comm {V} (k1 k2 : str) (v1 v2 w1 w2 : V) (d : list (str * V)) :
  str_eqb k1 k2 = false ->
  dict_get k1 d = Some w1 -> dict_get k2 d = Some w2 ->
  dict_set k2 v2 (dict_set k1 v1 d) = dict_set k1 v1 (dict_set k2 v2 d).
Proof.
  intros Hne. assert (Hne' : str_eqb k2 k1 = false).
  { apply str_eqb_neq. apply str_eqb_neq in Hne. congruence. }
  induction d as [|[k0 v0] d IH]; simpl; [discriminate|].
  destruct (str_eqb k1 k0) eqn:E1; destruct (str_eqb k2 k0) eqn:E2; simpl.
  - apply str_eqb_eq in E1, E2. subst. rewrite str_eqb_refl in Hne.
    discriminate.
  - intros _ H2. rewrite Hne', E1. reflexivity.
  - intros H1 _. rewrite Hne, E2. reflexivity.
  - intros H1 H2. rewrite E1, E2, IH by assumption. reflexivity.
Qed.

Lemma set_permissions_at_twice (parts : list str) (m1 m2 : Z) (node : Node) :
  set_permissions_at parts m2 (set_permissions_at parts m1 node)
  = set_permissions_at parts m2 node.
Proof.
  revert node; induction parts as [|p rest IH]; intros node.
  - reflexivity.
  - simpl. destruct (dict_get p (children node)) as [child|] eqn:E.
    + simpl. rewrite dict_get_set_same, dict_set_set, IH. reflexivity.
    + rewrite E. reflexivity.
Qed.

Lemma set_permissions_at_comm (q1 : list str) :
  forall (q2 : list str) (m1 m2 : Z) (node n1 n2 : Node),
    descend q1 node = Some n1 -> descend q2 node = Some n2 -> q1 <> q2 ->
    set_permissions_at q2 m2 (set_permissions_at q1 m1 node)
    = set_permissions_at q1 m1 (set_permissions_at q2 m2 node).
Proof.
  induction q1 as [|k1 r1 IH]; intros q2 m1 m2 node n1 n2 H1 H2 Hne.
  - destruct q2 as [|k2 r2]; [congruence|]. simpl in *.
    destruct (dict_get k2 (children node)); reflexivity.
  - destruct q2 as [|k2 r2].
    + simpl in *. destruct (dict_get k1 (children node)); reflexivity.
    + simpl in H1, H2. simpl.
      destruct (dict_get k1 (children node)) as [c1|] eqn:E1; [|discriminate].
      destruct (dict_get k2 (children node)) as [c2|] eqn:E2; [|discriminate].
      simpl. destruct (str_eqb k1 k2) eqn:Ek.
      * apply str_eqb_eq in Ek. subst k2.
        assert (c2 = c1) by congruence. subst c2.
        rewrite !dict_get_set_same, !dict_set_set.
        rewrite (IH r2 m1 m2 c1 n1 n2) by (assumption || congruence).
        reflexivity.
      * assert (Ek' : str_eqb k2 k1 = false).
        { apply str_eqb_neq. apply str_eqb_neq in Ek. congruence. }
        rewrite (dict_get_set_other k1 k2) by assumption.
        rewrite (dict_get_set_other k2 k1) by assumption.
        rewrite E1, E2. unfold set_children. simpl. f_equal.
        eapply dict_set_comm; eassumption.
Qed.

Lemma get_node_after_chmod (self : VFS) (path : str) (node : Node) (m : Z) :
  get_node self path = Some node ->
  get_node (mkVFS (set_permissions_at (node_ref self path) m (root self))
                  (current_path self)) path
  = Some (set_permissions node m).
Proof.
  intros E. rewrite get_node_descend in *.
  rewrite (node_ref_current
             (mkVFS (set_permissions_at (node_ref self path) m (root self))
                    (current_path self)) self path eq_refl).
  simpl. apply set_permissions_at_target. assumption.
Qed.

Lemma chmod_after_chmod (self : VFS) (mode1 mode2 : Mode) (path : str)
      (m2 : Z) :
  mode_value mode2 = Some m2 ->
  chmod (snd (chmod self mode1 path)) mode2 path = chmod self mode2 path.
Proof.
  intros M2.
  destruct (get_node self path) as [node|] eqn:E.
  - destruct (mode_value mode1) as [m1|] eqn:M1.
    + rewrite (chmod_accepted self mode1 path node m1 E M1). cbn [snd].
      rewrite (chmod_accepted _ mode2 path _ m2
                 (get_node_after_chmod self path node m1 E) M2).
      rewrite (chmod_accepted self mode2 path node m2 E M2).
      rewrite (node_ref_current
                 (mkVFS (set_permissions_at (node_ref self path) m1
                           (root self)) (current_path self))
                 self path eq_refl).
      simpl. rewrite set_permissions_at_twice. reflexivity.
    + destruct mode1 as [s|z]; simpl in M1; [|discriminate].
      rewrite (chmod_rejected self s path node E M1). reflexivity.
  - rewrite (chmod_missing self mode1 path E). reflexivity.
Qed.

(** X2.  Whatever a first [chmod] on a path did, a second one with an accepted
    mode leaves the session the second one alone would have left. *)
Theorem chmod_last_wins (self : VFS) (mode1 mode2 : Mode) (path : str)
        (m2 : Z) :
  mode_value mode2 = Some m2 ->
  chmod (snd (chmod self mode1 path)) mode2 path = chmod self mode2 path.
Proof. apply chmod_after_chmod. Qed.

Lemma chmod_last_wins_witness :
  chmod (snd (chmod sample_vfs (MStr (lit "7777")) (lit "/b.bin")))
        (MStr (lit "600")) (lit "/b.bin")
  = chmod sample_vfs (MStr (lit "600")) (lit "/b.bin").
Proof.
  exact (chmod_last_wins sample_vfs (MStr (lit "7777")) (MStr (lit "600"))
           (lit "/b.bin") 384%Z eq_refl).
Defined.

(** X1.  [chmod] is idempotent: the same call made again returns the same
    answer and leaves the session the first call left, whether the call
    is accepted, refused for its mode or refused for its path. *)
Theorem chmod_idempotent (self : VFS) (mode : Mode) (path : str) :
  chmod (snd (chmod self mode path)) mode path = chmod self mode path.
Proof.
  destruct (mode_value mode) as [m|] eqn:M.
  - apply (chmod_after_chmod self mode mode path m M).
  - destruct mode as [s|z]; simpl in M; [|discriminate].
    destruct (get_node self path) as [node|] eqn:E.
    + rewrite (chmod_rejected self s path node E M). cbn [snd].
      apply (chmod_rejected self s path node E M).
    + rewrite (chmod_missing self (MStr s) path E). cbn [snd].
      apply (chmod_missing self (MStr s) path E).
Qed.

(** X3.  Two accepted [chmod] calls on paths that resolve to different nodes
    can be made in either order: the session afterwards is the same. *)
Theorem chmod_commute (self : VFS) (mode1 mode2 : Mode) (path1 path2 : str)
        (n1 n2 : Node) (m1 m2 : Z) :
  get_node self path1 = Some n1 -> get_node self path2 = Some n2 ->
  node_ref self path1 <> node_ref self path2 ->
  mode_value mode1 = Some m1 -> mode_value mode2 = Some m2 ->
  snd (chmod (snd (chmod self mode1 path1)) mode2 path2)
  = snd (chmod (snd (chmod self mode2 path2)) mode1 path1).
Proof.
  intros E1 E2 Hne M1 M2.
  assert (K : forall (pa pb : str) (ma : Z) (na nb : Node),
             get_node self pa = Some na -> get_node self pb = Some nb ->
             node_ref self pa <> node_ref self pb ->
             exists nb',
               get_node (mkVFS (set_permissions_at (node_ref self pa) ma
                                  (root self)) (current_path self)) pb
               = Some nb').
  { intros pa pb ma na nb Ha Hb Hab. rewrite get_node_descend in *.
    rewrite (node_ref_current
               (mkVFS (set_permissions_at (node_ref self pa) ma (root self))
                      (current_path self)) self pb eq_refl).
    simpl.
    pose proof (set_permissions_at_shallow _ ma _ _ Ha (node_ref self pb)
                  (fun H => Hab (eq_sym H))) as S.
    rewrite Hb in S.
    destruct (descend (node_ref self pb)
                (set_permissions_at (node_ref self pa) ma (root self)));
      [eauto | discriminate]. }
  rewrite (chmod_accepted self mode1 path1 n1 m1 E1 M1).
  rewrite (chmod_accepted self mode2 path2 n2 m2 E2 M2). cbn [snd].
  destruct (K path1 path2 m1 n1 n2 E1 E2 Hne) as [n2' E2'].
  destruct (K path2 path1 m2 n2 n1 E2 E1 (fun H => Hne (eq_sym H)))
    as [n1' E1'].
  rewrite (chmod_accepted _ mode2 path2 n2' m2 E2' M2).
  rewrite (chmod_accepted _ mode1 path1 n1' m1 E1' M1).
  rewrite (node_ref_current
             (mkVFS (set_permissions_at (node_ref self path1) m1 (root self))
                    (current_path self)) self path2 eq_refl).
  rewrite (node_ref_current
             (mkVFS (set_permissions_at (node_ref self path2) m2 (root self))
                    (current_path self)) self path1 eq_refl).
  simpl. f_equal. rewrite get_node_descend in E1, E2.
  apply (set_permissions_at_comm _ _ m1 m2 _ n1 n2 E1 E2 Hne).
Qed.

Lemma chmod_commute_witness :
  snd (chmod (snd (chmod sample_vfs (MStr (lit "700")) (lit "/docs")))
             (MStr (lit "600")) (lit "/docs/readme.txt"))
  = snd (chmod (snd (chmod sample_vfs (MStr (lit "600"))
                           (lit "/docs/readme.txt")))
               (MStr (lit "700")) (lit "/docs")).
Proof.
  refine (chmod_commute sample_vfs (MStr (lit "700")) (MStr (lit "600"))
            (lit "/docs") (lit "/docs/readme.txt") _ _ 448%Z 384%Z
            eq_refl eq_refl _ eq_refl eq_refl).
  discriminate.
Defined.

(** ** The session invariant *)

Lemma import_parts_own_fields (parts : list str) (info : ZipInfo)
      (node : Node) :
  type (fst (import_parts parts info node)) = type node
  /\ content (fst (import_parts parts info node)) = content node
  /\ permissions (fst (import_parts parts info node)) = permissions node.
Proof.
  destruct parts as [|part rest]; [simpl; auto|].
  destruct (at_file_part rest info) eqn:F.
  - cbn [import_parts]. rewrite F.
    destruct (read info) as [b|]; [|simpl; auto].
    destruct (bytes_decode (b64encode b)); simpl; auto.
  - rewrite (import_parts_dir_step part rest info node F).
    assert (K : type (ensure_dir part node) = type node
                /\ content (ensure_dir part node) = content node
                /\ permissions (ensure_dir part node) = permissions node).
    { unfold ensure_dir. destruct (dict_get part (children node)); simpl; auto. }
    destruct (dict_get part (children (ensure_dir part node))); [|exact K].
    destruct (import_parts rest info n). simpl. exact K.
Qed.

Lemma import_entries_root_type (infolist : list ZipInfo) (node : Node) :
  type (fst (import_entries infolist node)) = type node.
Proof.
  revert node; induction infolist as [|info l IH]; simpl; intros node;
    [reflexivity|].
  pose proof (import_parts_own_fields (entry_parts info) info node) as [T _].
  unfold import_entry. fold (entry_parts info).
  destruct (import_parts (entry_parts info) info node) as [n ok]. simpl in T.
  destruct ok; [rewrite IH|]; assumption.
Qed.

Lemma set_permissions_at_types (parts : list str) (m : Z) :
  forall (node : Node) (q : list str),
    option_map type (descend q (set_permissions_at parts m node))
    = option_map type (descend q node).
Proof.
  induction parts as [|p rest IH]; intros node q.
  - destruct q; reflexivity.
  - simpl. destruct (dict_get p (children node)) as [child|] eqn:E;
      [|reflexivity].
    destruct q as [|k q]; [reflexivity|]. simpl.
    destruct (str_eqb k p) eqn:Ek.
    + apply str_eqb_eq in Ek. subst k.
      rewrite dict_get_set_same, E. apply IH.
    + rewrite dict_get_set_other by assumption. reflexivity.
Qed.

Lemma session_ok_init_load (zf : option (list ZipInfo)) :
  session_ok (snd (load_from_zip VFS_init zf)).
Proof.
  assert (K : forall s, current_path s = lit "/" -> type (root s) = TDir ->
                        session_ok s).
  { intros s Hc Hr. unfold session_ok. rewrite Hc.
    split; [assumption|]. split; [reflexivity|].
    exists (root s). split; [reflexivity | assumption]. }
  destruct zf as [infolist|]; simpl; [|apply K; reflexivity].
  pose proof (import_entries_root_type infolist (mkNode TDir [] None None)) as T.
  destruct (import_entries infolist (mkNode TDir [] None None)) as [r ok].
  apply K; [reflexivity | exact T].
Qed.

Lemma session_ok_call (self : VFS) (c : Call) :
  session_ok self -> session_ok (snd (call self c)).
Proof.
  intros H0. pose proof H0 as [Hr [Hn [node [Hg Ht]]]].
  destruct c as [p|p|p|mode p]; simpl.
  - exact H0.
  - unfold change_dir.
    rewrite (get_node_normalized self self p eq_refl).
    destruct (get_node self p) as [n|] eqn:E; [|exact H0].
    destruct (type n) eqn:T; [|exact H0].
    unfold session_ok. cbn [snd root current_path].
    split; [assumption|]. split.
    + apply normalize_path_fixed.
    + exists n. split; [|assumption].
      rewrite (get_node_normalized self
                 (mkVFS (root self) (normalize_path self p)) p eq_refl).
      assumption.
  - exact H0.
  - destruct (get_node self p) as [n|] eqn:E.
    + destruct (mode_value mode) as [m|] eqn:M.
      * rewrite (chmod_accepted self mode p n m E M).
        unfold session_ok. cbn [snd root current_path].
        pose proof (set_permissions_at_types (node_ref self p) m (root self))
          as K.
        split; [|split].
        -- pose proof (K []) as K0. simpl in K0. congruence.
        -- exact Hn.
        -- rewrite get_node_descend in Hg |- *.
           rewrite (node_ref_current
                      (mkVFS (set_permissions_at (node_ref self p) m
                                (root self)) (current_path self))
                      self (current_path self) eq_refl).
           simpl. specialize (K (node_ref self (current_path self))).
           rewrite Hg in K. simpl in K.
           destruct (descend (node_ref self (current_path self))
                       (set_permissions_at (node_ref self p) m (root self)))
             as [n'|]; [|discriminate].
           exists n'. split; [reflexivity|]. simpl in K. congruence.
      * destruct mode as [s|z]; simpl in M; [|discriminate].
        rewrite (chmod_rejected self s p n E M). exact H0.
    + rewrite (chmod_missing self mode p E). exact H0.
Qed.

Lemma session_ok_run (zf : option (list ZipInfo)) (cs : list Call) :
  session_ok (run (snd (load_from_zip VFS_init zf)) cs).
Proof.
  unfold run.
  generalize (session_ok_init_load zf).
  generalize (snd (load_from_zip VFS_init zf)).
  induction cs as [|c cs IH]; simpl; intros s H; [assumption|].
  apply IH. apply session_ok_call. assumption.
Qed.

(** X4.  After an import into a fresh session and any calls of the four
    commands, the root is a directory and [current_path] is a normalised
    path that resolves to a directory. *)
Theorem session_invariant (zf : option (list ZipInfo)) (cs : list Call) :
  session_ok (run (snd (load_from_zip VFS_init zf)) cs).
Proof. apply session_ok_run. Qed.

(** ** Path normalisation: shape and composition *)

Lemma endswith_app_r (a b : str) (c : N) :
  b <> [] -> endswith (a ++ b) c = endswith b c.
Proof.
  intros Hb. induction a as [|x a IH]; [reflexivity|].
  simpl. destruct (a ++ b) eqn:E; [|exact IH].
  apply app_eq_nil in E. tauto.
Qed.

Lemma endswith_In (s : str) (c : N) : endswith s c = true -> In c s.
Proof.
  intros H. destruct (endswith_app s c H) as [s' ->].
  apply in_or_app. right. left. reflexivity.
Qed.

Lemma join_last (sep : str) (l : list str) (x : str) :
  exists pre, join sep (l ++ [x]) = pre ++ x.
Proof.
  induction l as [|y l [pre IH]].
  - exists []. reflexivity.
  - destruct l as [|z l].
    + exists (y ++ sep). simpl. rewrite <- app_assoc. reflexivity.
    + exists (y ++ sep ++ pre).
      change (join sep ((y :: z :: l) ++ [x]))
        with (y ++ sep ++ join sep ((z :: l) ++ [x])).
      rewrite IH, <- !app_assoc. reflexivity.
Qed.

(** X5.  The result of [normalize_path] is the root path, or it does not end
    with a slash. *)
Theorem normalize_path_no_trailing_slash (self : VFS) (path : str) :
  normalize_path self path = lit "/"
  \/ endswith (normalize_path self path) SLASH = false.
Proof.
  rewrite normalize_path_assemble.
  pose proof (resolved_of_canonical self path) as C.
  destruct (resolved_of self path) as [|x l]; [left; reflexivity|].
  right.
  destruct (@exists_last _ (x :: l)) as [l' [z Hz]]; [discriminate|].
  rewrite Hz in *. apply Forall_app in C. destruct C as [_ C].
  inversion C as [|? ? [Hk [_ Hs]] _]; subst.
  assert (Hz0 : z <> []).
  { intros ->. discriminate. }
  unfold assemble. destruct (l' ++ [z]) eqn:E'.
  - apply app_eq_nil in E'. destruct E'. discriminate.
  - rewrite <- E'. destruct (join_last (lit "/") l' z) as [pre ->].
    rewrite app_assoc, endswith_app_r by assumption.
    destruct (endswith z SLASH) eqn:Ez; [|reflexivity].
    exfalso. apply Hs. apply endswith_In. assumption.
Qed.

Lemma kept_parts_app (a b : str) :
  kept_parts (a ++ SLASH :: b) = kept_parts a ++ kept_parts b.
Proof. unfold kept_parts. rewrite split_app_sep, filter_app. reflexivity. Qed.

Lemma kept_parts_assemble (l : list str) :
  Forall canonical_part l -> kept_parts (assemble l) = l.
Proof.
  intros H. destruct l as [|x l]; [reflexivity|].
  unfold kept_parts, assemble.
  change (lit "/" ++ join (lit "/") (x :: l))
    with (SLASH :: join [SLASH] (x :: l)).
  cbn [split]. rewrite N.eqb_refl.
  rewrite split_join;
    [| discriminate | apply canonical_no_slash; exact H].
  change (filter keep_part ([] :: x :: l)) with (filter keep_part (x :: l)).
  apply filter_keep_canonical. assumption.
Qed.

(** The stack of a relative path is the stack of the current directory
    carried on over the parts of the path. *)
Lemma resolved_of_relative (self : VFS) (path : str) :
  startswith path SLASH = false ->
  resolved_of self path
  = fold_left resolve_step
              (kept_parts (current_path self) ++ kept_parts path) [].
Proof.
  intros H. unfold resolved_of. rewrite H.
  rewrite keep_split_rstrip, keep_split_join by assumption.
  change (lit "/" ++ path) with (SLASH :: path).
  fold (kept_parts (current_path self ++ SLASH :: path)).
  rewrite kept_parts_app. reflexivity.
Qed.

Lemma resolved_of_absolute (self : VFS) (path : str) :
  startswith path SLASH = true ->
  resolved_of self path = fold_left resolve_step (kept_parts path) [].
Proof. intros H. unfold resolved_of. rewrite H. reflexivity. Qed.

Lemma normalize_path_join (self : VFS) (r : Node) (a b : str) :
  a <> [] -> startswith b SLASH = false ->
  normalize_path (mkVFS r (normalize_path self a)) b
  = normalize_path self (a ++ lit "/" ++ b).
Proof.
  intros Ha Hb. rewrite !normalize_path_assemble. f_equal.
  change (lit "/" ++ b) with (SLASH :: b).
  rewrite (resolved_of_relative _ b Hb). cbn [current_path].
  rewrite (kept_parts_assemble _ (resolved_of_canonical self a)).
  rewrite fold_left_app.
  rewrite (resolve_no_dotdot _ [] (resolved_of_canonical self a)).
  cbn [app].
  destruct (startswith a SLASH) eqn:Sa.
  - assert (Sab : startswith (a ++ SLASH :: b) SLASH = true).
    { destruct a; [congruence | exact Sa]. }
    rewrite (resolved_of_absolute self _ Sab), (resolved_of_absolute self a Sa).
    rewrite kept_parts_app, fold_left_app. reflexivity.
  - assert (Sab : startswith (a ++ SLASH :: b) SLASH = false).
    { destruct a; [congruence | exact Sa]. }
    rewrite (resolved_of_relative self _ Sab), (resolved_of_relative self a Sa).
    rewrite kept_parts_app, !fold_left_app. reflexivity.
Qed.

(** X6.  Resolving a relative path [b] from the directory that [a] normalises
    to is resolving [a/b] from where one started. *)
Theorem normalize_path_compose (self : VFS) (r : Node) (a b : str) :
  a <> [] -> startswith b SLASH = false ->
  normalize_path (mkVFS r (normalize_path self a)) b
  = normalize_path self (a ++ lit "/" ++ b).
Proof. apply normalize_path_join. Qed.

Lemma normalize_path_compose_witness :
  normalize_path (mkVFS new_dir (normalize_path VFS_init (lit "docs/../a")))
                 (lit "../b")
  = normalize_path VFS_init (lit "docs/../a" ++ lit "/" ++ lit "../b").
Proof.
  apply (normalize_path_compose VFS_init new_dir (lit "docs/../a")
           (lit "../b")).
  - discriminate.
  - reflexivity.
Defined.

(** ** [change_dir]: two steps and one *)

Lemma get_node_same_root (s s' x : VFS) (path : str) :
  root s = root s' ->
  get_node s (normalize_path x path) = get_node s' (normalize_path x path).
Proof.
  intros H. rewrite !get_node_descend, !node_ref_normalized, H. reflexivity.
Qed.

(** X8.  A successful [change_dir] to [a] followed by a successful one to the
    relative path [b] ends in the session that the single step to [a/b]
    gives. *)
Theorem change_dir_compose (self s1 s2 : VFS) (a b t1 t2 : str) :
  a <> [] -> startswith b SLASH = false ->
  change_dir self a = (Moved t1, s1) ->
  change_dir s1 b = (Moved t2, s2) ->
  change_dir self (a ++ lit "/" ++ b) = (Moved t2, s2).
Proof.
  intros Ha Hb H1 H2.
  unfold change_dir in H1.
  destruct (get_node self (normalize_path self a)) as [n1|]; [|discriminate].
  destruct (type n1); [|discriminate].
  inversion H1; subst t1 s1; clear H1.
  unfold change_dir in H2 |- *. cbn [root] in H2.
  rewrite (normalize_path_join self (root self) a b Ha Hb) in H2.
  rewrite (get_node_same_root
             (mkVFS (root self) (normalize_path self a)) self self
             (a ++ lit "/" ++ b) eq_refl) in H2.
  destruct (get_node self (normalize_path self (a ++ lit "/" ++ b)))
    as [n2|]; [|discriminate].
  destruct (type n2); [|discriminate].
  exact H2.
Qed.

Lemma change_dir_compose_witness :
  change_dir sample_vfs (lit "docs/.." ++ lit "/" ++ lit "docs")
  = (Moved (lit "/docs"), mkVFS (root sample_vfs) (lit "/docs")).
Proof.
  apply (change_dir_compose sample_vfs
           (mkVFS (root sample_vfs) (lit "/")) _ (lit "docs/..") (lit "docs")
           (lit "/") (lit "/docs")).
  - discriminate.
  - reflexivity.
  - reflexivity.
  - reflexivity.
Defined.

(** ** The importer: success, repetition, frame *)

Lemma at_file_part_dir (rest : list str) (info : ZipInfo) :
  is_dir info = true -> at_file_part rest info = false.
Proof. intros H. destruct rest; simpl; [rewrite H|]; reflexivity. Qed.

Lemma import_parts_dir_ok (parts : list str) (info : ZipInfo) (node : Node) :
  is_dir info = true -> snd (import_parts parts info node) = true.
Proof.
  intros Hd. revert node; induction parts as [|part rest IH]; intros node;
    [reflexivity|].
  rewrite (import_parts_dir_step part rest info node
             (at_file_part_dir rest info Hd)).
  destruct (ensure_dir_get part node) as [child ->].
  specialize (IH child).
  destruct (import_parts rest info child). exact IH.
Qed.




Lemma dict_set_same {V} (k : str) (v : V) (d : list (str * V)) :
  dict_get k d = Some v -> dict_set k v d = d.
Proof.
  induction d as [|[k0 v0] d IH]; simpl; [discriminate|].
  destruct (str_eqb k k0) eqn:E.
  - apply str_eqb_eq in E. subst k0. intros H. inversion H. reflexivity.
  - intros H. rewrite (IH H). reflexivity.
Qed.

Lemma set_children_same (node : Node) :
  set_children node (children node) = node.
Proof. destruct node; reflexivity. Qed.

Lemma ensure_dir_present (part : str) (node child : Node) :
  dict_get part (children node) = Some child -> ensure_dir part node = node.
Proof. intros H. unfold ensure_dir. rewrite H. reflexivity. Qed.

(** An entry whose path is already there as it would write it changes
    nothing. *)
Lemma import_parts_dir_noop (parts : list str) (info : ZipInfo) :
  is_dir info = true ->
  forall node n, descend parts node = Some n ->
                 import_parts parts info node = (node, true).
Proof.
  intros Hd. induction parts as [|part rest IH]; intros node n H;
    [reflexivity|].
  simpl in H.
  destruct (dict_get part (children node)) as [child|] eqn:E; [|discriminate].
  rewrite (import_parts_dir_step part rest info node
             (at_file_part_dir rest info Hd)).
  rewrite (ensure_dir_present part node child E), E, (IH child n H).
  rewrite (dict_set_same _ _ _ E), set_children_same. reflexivity.
Qed.

Lemma import_parts_file_noop (parts : list str) (info : ZipInfo) (b : bytes) :
  is_dir info = false -> read info = Some b ->
  forall node, parts <> [] ->
               descend parts node = Some (new_file (b64text b)) ->
               import_parts parts info node = (node, true).
Proof.
  intros Hd Hr. induction parts as [|part rest IH]; intros node Hne H;
    [congruence|].
  simpl in H.
  destruct (dict_get part (children node)) as [child|] eqn:E; [|discriminate].
  destruct rest as [|q r].
  - simpl in H. inversion H; subst child.
    cbn [import_parts at_file_part]. rewrite Hd, Hr, stored_text.
    cbn [negb]. rewrite (dict_set_same _ _ _ E), set_children_same.
    reflexivity.
  - rewrite (import_parts_dir_step part (q :: r) info node eq_refl).
    rewrite (ensure_dir_present part node child E), E.
    rewrite (IH child) by (discriminate || assumption).
    rewrite (dict_set_same _ _ _ E), set_children_same. reflexivity.
Qed.

(** After the import of an entry every proper ancestor of its path is
    there, and so is the path itself for a directory entry; what was not
    there before is a directory with permissions 0o755. *)
Lemma import_parts_ancestors (parts : list str) (info : ZipInfo) :
  forall (node : Node) (q : list str),
    is_prefix q parts -> q <> parts \/ is_dir info = true ->
    exists n,
      descend q (fst (import_parts parts info node)) = Some n
      /\ (descend q node = None ->
          type n = TDir /\ permissions n = Some 493%Z).
Proof.
  induction parts as [|part rest IH]; intros node q [r Hr] Hq.
  - destruct q; [|discriminate]. exists node. split; [reflexivity|].
    simpl. discriminate.
  - destruct q as [|k q'].
    + eexists. split; [reflexivity|]. simpl. discriminate.
    + simpl in Hr. inversion Hr; subst k rest. clear Hr.
      assert (F : at_file_part (q' ++ r) info = false).
      { destruct (q' ++ r) eqn:E; [|reflexivity].
        apply app_eq_nil in E. destruct E; subst.
        destruct Hq as [Hq|Hq]; [congruence|]. simpl. rewrite Hq. reflexivity. }
      rewrite (import_parts_dir_step part (q' ++ r) info node F).
      destruct (ensure_dir_get part node) as [child Hc]. rewrite Hc.
      assert (Hq' : q' <> q' ++ r \/ is_dir info = true).
      { destruct Hq as [Hq|Hq]; [left; congruence | right; assumption]. }
      destruct (IH child q' (ex_intro _ r eq_refl) Hq') as [n [Hn Hnew]].
      pose proof (import_parts_own_fields (q' ++ r) info child) as [T [_ P]].
      destruct (import_parts (q' ++ r) info child) as [child' ok].
      cbn [fst] in *. exists n. split.
      * simpl. rewrite dict_get_set_same. exact Hn.
      * simpl. unfold ensure_dir in Hc.
        destruct (dict_get part (children node)) as [c0|] eqn:E0.
        -- assert (c0 = child) by congruence. subst c0. exact Hnew.
        -- intros _. simpl in Hc. rewrite dict_get_set_same in Hc.
           inversion Hc; subst child.
           destruct q' as [|k2 q2].
           ++ simpl in Hn. inversion Hn; subst n. rewrite T, P. split; reflexivity.
           ++ apply Hnew. reflexivity.
Qed.

Lemma import_parts_dir_exists (parts : list str) (info : ZipInfo)
      (node : Node) :
  is_dir info = true ->
  exists n, descend parts (fst (import_parts parts info node)) = Some n.
Proof.
  intros Hd.
  destruct (import_parts_ancestors parts info node parts
              (ex_intro _ [] (eq_sym (app_nil_r parts))) (or_intror Hd))
    as [n [Hn _]].
  eauto.
Qed.

(** X11.  Importing an entry a second time changes nothing: the answer and the
    tree are those of the first import. *)
Theorem import_entry_idempotent (info : ZipInfo) (node : Node) :
  import_entry info (fst (import_entry info node)) = import_entry info node.
Proof.
  unfold import_entry. fold (entry_parts info).
  assert (Hne : entry_parts info <> []) by apply split_not_nil.
  destruct (is_dir info) eqn:Hd.
  - destruct (import_parts_dir_exists (entry_parts info) info node Hd)
      as [n Hn].
    rewrite (import_parts_dir_noop _ info Hd _ n Hn).
    pose proof (import_parts_dir_ok (entry_parts info) info node Hd) as K.
    destruct (import_parts (entry_parts info) info node). simpl in K.
    subst. reflexivity.
  - destruct (read info) as [b|] eqn:Hr.
    + destruct (import_parts_file_stored (entry_parts info) info b node
                  Hne Hd Hr) as [K1 K2].
      rewrite (import_parts_file_noop _ info b Hd Hr _ Hne K2).
      destruct (import_parts (entry_parts info) info node). simpl in K1.
      subst. reflexivity.
    + rewrite !(import_parts_read_fails (entry_parts info) info _ Hne Hd Hr).
      cbn [fst]. f_equal.
      destruct (import_parts_dir_exists (removelast (entry_parts info))
                  (as_directory info) node eq_refl) as [n Hn].
      rewrite (import_parts_dir_noop _ (as_directory info) eq_refl _ n Hn).
      reflexivity.
Qed.

(** X12.  Importing an entry creates every missing ancestor of its path as a
    directory with permissions 0o755, whether or not the read of the
    entry then succeeds. *)
Theorem import_entry_ancestors (info : ZipInfo) (node : Node) (q : list str) :
  is_prefix q (entry_parts info) ->
  q <> entry_parts info \/ is_dir info = true ->
  exists n,
    descend q (fst (import_entry info node)) = Some n
    /\ (descend q node = None -> type n = TDir /\ permissions n = Some 493%Z).
Proof. apply import_parts_ancestors. Qed.

Lemma import_entry_ancestors_witness :
  exists n,
    descend [lit "c"] (fst (import_entry entry_broken (root sample_vfs)))
    = Some n
    /\ (descend [lit "c"] (root sample_vfs) = None ->
        type n = TDir /\ permissions n = Some 493%Z).
Proof.
  apply (import_entry_ancestors entry_broken (root sample_vfs) [lit "c"]).
  - exists [lit "d.txt"]. reflexivity.
  - left. discriminate.
Defined.

Lemma import_parts_frame (parts : list str) (info : ZipInfo) :
  forall (node : Node) (q : list str),
    diverge q parts ->
    descend q (fst (import_parts parts info node)) = descend q node.
Proof.
  induction parts as [|part rest IH];
    intros node q [c [k [k' [q' [p' [Hq [Hp Hk]]]]]]].
  - destruct c; discriminate.
  - assert (G : forall d v, str_eqb k part = false ->
                  descend (k :: q')
                    (set_children node (dict_set part v d))
                  = match dict_get k d with
                    | Some ch => descend q' ch
                    | None => None
                    end).
    { intros d v Hne. simpl. rewrite dict_get_set_other by assumption.
      reflexivity. }
    destruct c as [|x c].
    + simpl in Hq, Hp. inversion Hp; subst k' p' q. clear Hp.
      destruct (at_file_part rest info) eqn:F.
      * cbn [import_parts]. rewrite F.
        destruct (read info) as [b|]; [|reflexivity].
        destruct (bytes_decode (b64encode b)); [|reflexivity].
        cbn [fst]. apply G. assumption.
      * rewrite (import_parts_dir_step part rest info node F).
        destruct (ensure_dir_get part node) as [child Hc]. rewrite Hc.
        destruct (import_parts rest info child) as [child' ok]. cbn [fst].
        simpl. rewrite dict_get_set_other by assumption.
        unfold ensure_dir.
        destruct (dict_get part (children node)); [reflexivity|].
        simpl. rewrite dict_get_set_other by assumption. reflexivity.
    + simpl in Hq, Hp. inversion Hp; subst x rest q. clear Hp.
      assert (F : at_file_part (c ++ k' :: p') info = false).
      { destruct c; reflexivity. }
      rewrite (import_parts_dir_step part _ info node F).
      destruct (ensure_dir_get part node) as [child Hc]. rewrite Hc.
      pose proof (IH child (c ++ k :: q')
                    (ex_intro _ c (ex_intro _ k (ex_intro _ k'
                       (ex_intro _ q' (ex_intro _ p'
                          (conj eq_refl (conj eq_refl Hk)))))))) as K.
      destruct (import_parts (c ++ k' :: p') info child) as [child' ok].
      cbn [fst] in *. simpl. rewrite dict_get_set_same, K.
      unfold ensure_dir in Hc.
      destruct (dict_get part (children node)) as [c0|] eqn:E0.
      * assert (c0 = child) by congruence. subst. reflexivity.
      * simpl in Hc. rewrite dict_get_set_same in Hc.
        inversion Hc; subst child. destruct c; reflexivity.
Qed.

(** X13.  The import of an entry leaves alone every place whose path parts
    ways with the path of the entry: what [descend] finds there, node
    and subtree, is what it found before. *)
Theorem import_entry_frame (info : ZipInfo) (node : Node) (q : list str) :
  diverge q (entry_parts info) ->
  descend q (fst (import_entry info node)) = descend q node.
Proof. apply import_parts_frame. Qed.

Lemma import_entry_frame_witness :
  descend [lit "docs"; lit "readme.txt"]
          (fst (import_entry entry_blob (root sample_vfs)))
  = descend [lit "docs"; lit "readme.txt"] (root sample_vfs).
Proof.
  apply (import_entry_frame entry_blob (root sample_vfs)
           [lit "docs"; lit "readme.txt"]).
  exists [], (lit "docs"), (lit "b.bin"), [lit "readme.txt"], [].
  repeat split.
Defined.

(** ** Nodes below the root are well formed *)

Section AllBelow.

Variable P : ntype -> option str -> option Z -> bool.





Hypothesis P_new_dir : P TDir None (Some 493%Z) = true.
Hypothesis P_new_file :
  forall b, P TFile (Some (b64text b)) (Some 420%Z) = true.
Hypothesis P_chmod :
  forall t c p m, P t c p = true -> P t c (Some m) = true.







End AllBelow.





(** ** Names in a directory are unique *)

Lemma str_eqb_sym (a b : str) : str_eqb a b = str_eqb b a.
Proof.
  destruct (str_eqb a b) eqn:E.
  - apply str_eqb_eq in E. subst. symmetry. apply str_eqb_refl.
  - symmetry. apply str_eqb_neq. apply str_eqb_neq in E. congruence.
Qed.

Lemma nodup_keys_add (l : list str) (k : str) :
  nodup_keys l = true -> nodup_keys (add_key l k) = true.
Proof.
  unfold add_key. destruct (existsb (str_eqb k) l) eqn:E; [tauto|].
  induction l as [|k0 l IH]; [reflexivity|].
  simpl in *. apply orb_false_iff in E. destruct E as [E1 E2].
  intros H. apply andb_true_iff in H. destruct H as [H1 H2].
  rewrite existsb_app. simpl.
  rewrite (str_eqb_sym k0 k), E1, orb_false_r, H1, IH by assumption.
  reflexivity.
Qed.

Lemma names_unique_unfold (n : Node) :
  names_unique n
  = nodup_keys (dict_keys (children n))
    && forallb (fun kv => names_unique (snd kv)) (children n).
Proof. destruct n; reflexivity. Qed.

Lemma names_unique_forallb_set (k : str) (v : Node) (d : list (str * Node)) :
  forallb (fun kv => names_unique (snd kv)) d = true ->
  names_unique v = true ->
  forallb (fun kv => names_unique (snd kv)) (dict_set k v d) = true.
Proof.
  intros Hd Hv. induction d as [|[k0 v0] d IH]; simpl in *.
  - rewrite Hv. reflexivity.
  - apply andb_true_iff in Hd. destruct Hd as [H1 H2].
    destruct (str_eqb k k0); simpl.
    + rewrite Hv, H2. reflexivity.
    + rewrite H1, IH by assumption. reflexivity.
Qed.

Lemma names_unique_set_child (node : Node) (k : str) (v : Node) :
  names_unique node = true -> names_unique v = true ->
  names_unique (set_children node (dict_set k v (children node))) = true.
Proof.
  intros Hn Hv. rewrite names_unique_unfold in Hn.
  apply andb_true_iff in Hn. destruct Hn as [H1 H2].
  rewrite names_unique_unfold. simpl.
  rewrite dict_keys_set, nodup_keys_add, names_unique_forallb_set
    by assumption.
  reflexivity.
Qed.

Lemma names_unique_child (node : Node) (k : str) (c : Node) :
  names_unique node = true -> dict_get k (children node) = Some c ->
  names_unique c = true.
Proof.
  intros Hn. rewrite names_unique_unfold in Hn.
  apply andb_true_iff in Hn. destruct Hn as [_ H].
  induction (children node) as [|[k0 v0] d IH]; simpl in *; [discriminate|].
  apply andb_true_iff in H. destruct H as [H1 H2].
  destruct (str_eqb k k0).
  - intros E; inversion E; subst; assumption.
  - apply IH; assumption.
Qed.

Lemma names_unique_descend (q : list str) :
  forall node n, names_unique node = true -> descend q node = Some n ->
                 names_unique n = true.
Proof.
  induction q as [|k q IH]; intros node n H D.
  - simpl in D. congruence.
  - simpl in D.
    destruct (dict_get k (children node)) as [c|] eqn:E; [|discriminate].
    apply (IH c n); [|assumption].
    apply (names_unique_child node k c H E).
Qed.

Lemma names_unique_import_parts (parts : list str) (info : ZipInfo) :
  forall node, names_unique node = true ->
               names_unique (fst (import_parts parts info node)) = true.
Proof.
  induction parts as [|part rest IH]; intros node H; [assumption|].
  destruct (at_file_part rest info) eqn:F.
  - cbn [import_parts]. rewrite F.
    destruct (read info) as [b|]; [|assumption].
    rewrite stored_text. cbn [fst].
    apply names_unique_set_child; [assumption | reflexivity].
  - rewrite (import_parts_dir_step part rest info node F).
    assert (H1 : names_unique (ensure_dir part node) = true).
    { unfold ensure_dir. destruct (dict_get part (children node));
        [assumption|].
      apply names_unique_set_child; [assumption | reflexivity]. }
    destruct (dict_get part (children (ensure_dir part node)))
      as [child|] eqn:E; [|assumption].
    pose proof (IH child (names_unique_child _ _ _ H1 E)) as K.
    destruct (import_parts rest info child) as [child' ok]. cbn [fst] in *.
    apply names_unique_set_child; assumption.
Qed.

Lemma names_unique_set_permissions_at (parts : list str) (m : Z) :
  forall node, names_unique node = true ->
               names_unique (set_permissions_at parts m node) = true.
Proof.
  induction parts as [|p rest IH]; intros node H.
  - destruct node. exact H.
  - simpl. destruct (dict_get p (children node)) as [child|] eqn:E;
      [|assumption].
    apply names_unique_set_child; [assumption|].
    apply IH. apply (names_unique_child node p child H E).
Qed.

Lemma names_unique_run (zf : option (list ZipInfo)) (cs : list Call) :
  names_unique (root (run (snd (load_from_zip VFS_init zf)) cs)) = true.
Proof.
  unfold run.
  assert (H0 : names_unique (root (snd (load_from_zip VFS_init zf))) = true).
  { destruct zf as [infolist|]; [|reflexivity]. simpl.
    generalize (eq_refl : names_unique (mkNode TDir [] None None) = true).
    generalize (mkNode TDir [] None None).
    induction infolist as [|info l IH]; intros node H; [assumption|].
    cbn [import_entries].
    pose proof (names_unique_import_parts (entry_parts info) info node H)
      as H1.
    unfold import_entry. fold (entry_parts info).
    destruct (import_parts (entry_parts info) info node) as [n ok].
    cbn [fst] in H1. destruct ok; [|assumption].
    specialize (IH n H1). destruct (import_entries l n). exact IH. }
  revert H0. generalize (snd (load_from_zip VFS_init zf)).
  induction cs as [|c cs IH]; intros s H; [assumption|].
  cbn [fold_left]. apply IH.
  destruct c as [p|p|p|mode p]; cbn [call snd]; try assumption.
  - rewrite change_dir_root. assumption.
  - destruct (get_node s p) as [n|] eqn:E.
    + destruct (mode_value mode) as [m|] eqn:M.
      * rewrite (chmod_accepted s mode p n m E M). cbn [snd root].
        apply names_unique_set_permissions_at. assumption.
      * destruct mode as [x|z]; simpl in M; [|discriminate].
        rewrite (chmod_rejected s x p n E M). assumption.
    + rewrite (chmod_missing s mode p E). assumption.
Qed.

(** X18.  In a session made by an import into a fresh session and any calls,
    no node holds two children of the same name, so no listing shows a
    name twice: an archive that names a path again overwrites or reuses
    the node, it never adds a second one. *)
Theorem session_names_unique (zf : option (list ZipInfo)) (cs : list Call)
        (path : str) (node : Node) :
  get_node (run (snd (load_from_zip VFS_init zf)) cs) path = Some node ->
  nodup_keys (List.map (fun e => fst (fst e)) (dir_entries node)) = true.
Proof.
  intros E. rewrite get_node_descend in E.
  pose proof (names_unique_descend _ _ _ (names_unique_run zf cs) E) as H.
  rewrite names_unique_unfold in H. apply andb_true_iff in H.
  destruct H as [H _].
  replace (List.map (fun e => fst (fst e)) (dir_entries node))
    with (dict_keys (children node)); [assumption|].
  unfold dir_entries, dict_keys. rewrite map_map. apply map_ext.
  intros [name child]. reflexivity.
Qed.

Lemma session_names_unique_witness :
  nodup_keys
    (List.map (fun e => fst (fst e))
       (dir_entries
          (root (run (snd (load_from_zip VFS_init
                            (Some [entry_blob; entry_docs; entry_blob])))
                     []))))
  = true.
Proof.
  apply (session_names_unique (Some [entry_blob; entry_docs; entry_blob]) []
           (lit "/") _ eq_refl).
Defined.

(** ** Permissions as text: [oct], [int] and the listing *)

(** X20.  For a permission in 0..0o777 the listing shows [permission_column]:
    exactly the three octal digits when the value is at least 0o100, and
    otherwise a text that starts with what is left of the "0o" prefix. *)
Theorem listing_permission_column (p : Z) (name : str) (kind : ntype) :
  (0 <= p <= 511)%Z ->
  render_entry (name, kind, p)
  = (match kind with TDir => lit "d" | TFile => lit "-" end)
      ++ permission_column p ++ lit " " ++ name.
Proof.
  intros Hp. unfold render_entry. do 2 f_equal.
  assert (H : forallb (fun n => str_eqb (last3 (oct (Z.of_nat n)))
                                        (permission_column (Z.of_nat n)))
                      (seq 0 512) = true) by (vm_compute; reflexivity).
  rewrite forallb_forall in H.
  specialize (H (Z.to_nat p)). rewrite Z2Nat.id in H by lia.
  apply str_eqb_eq. apply H. apply in_seq. lia.
Qed.

Lemma listing_permission_column_witness :
  render_entry (lit "readme.txt", TFile, 420%Z) = lit "-644 readme.txt".
Proof.
  rewrite (listing_permission_column 420 (lit "readme.txt") TFile)
    by (split; discriminate).
  reflexivity.
Defined.

Lemma octal_digit_char (v : N) :
  v < 8 -> (48 + v =? UNDERSCORE) = false /\ octal_digit (48 + v) = Some v.
Proof.
  intros H.
  assert (K : v = 0 \/ v = 1 \/ v = 2 \/ v = 3 \/ v = 4 \/ v = 5 \/ v = 6
              \/ v = 7) by lia.
  repeat (destruct K as [K|K]; [subst; split; reflexivity|]).
  subst; split; reflexivity.
Qed.

Lemma scan_octal_digit (v : N) (s : str) (prev : bool) (d : nat) (a : N) :
  v < 8 ->
  scan_octal ((48 + v) :: s) prev d a = scan_octal s false (S d) (a * 8 + v).
Proof.
  intros H. destruct (octal_digit_char v H) as [H1 H2].
  cbn [scan_octal]. rewrite H1, H2. reflexivity.
Qed.

Lemma oct_digits_scan (fuel : nat) :
  forall (n : N) (acc : str) (d : nat) (a : N),
    (0 < fuel)%nat -> n < 8 ^ N.of_nat fuel ->
    exists k,
      scan_octal (oct_digits fuel n acc) false d a
      = scan_octal acc false (S (k + d)) (a * 8 ^ N.of_nat (S k) + n).
Proof.
  induction fuel as [|f IH]; intros n acc d a Hf Hn; [lia|].
  cbn [oct_digits].
  assert (Hm : n mod 8 < 8) by (apply N.mod_lt; discriminate).
  pose proof (N.div_mod n 8 ltac:(discriminate)) as Hdm.
  destruct (n / 8 =? 0) eqn:E.
  - apply N.eqb_eq in E. exists O.
    rewrite scan_octal_digit by assumption.
    change (N.of_nat 1) with 1. rewrite N.pow_1_r.
    f_equal. lia.
  - apply N.eqb_neq in E.
    assert (Hf' : (0 < f)%nat).
    { destruct f; [|lia]. exfalso.
      assert (Hn8 : n < 8) by exact Hn.
      apply E. apply N.div_small. exact Hn8. }
    assert (Hn' : n / 8 < 8 ^ N.of_nat f).
    { apply N.Div0.div_lt_upper_bound.
      rewrite Nat2N.inj_succ, N.pow_succ_r' in Hn. exact Hn. }
    destruct (IH (n / 8) ((48 + n mod 8) :: acc) d a Hf' Hn') as [k Hk].
    exists (S k). rewrite Hk, scan_octal_digit by assumption.
    f_equal.
    rewrite (Nat2N.inj_succ (S k)), N.pow_succ_r'. lia.
Qed.

Lemma oct_digits_head (fuel : nat) :
  forall (n : N) (acc : str),
    (0 < fuel)%nat ->
    exists v rest, v < 8 /\ oct_digits fuel n acc = (48 + v) :: rest.
Proof.
  induction fuel as [|f IH]; intros n acc Hf; [lia|].
  cbn [oct_digits].
  assert (Hm : n mod 8 < 8) by (apply N.mod_lt; discriminate).
  destruct (n / 8 =? 0); [eauto|].
  destruct f as [|f']; [simpl; eauto|].
  apply IH. lia.
Qed.

Lemma oct_fuel_enough (n : N) : n < 8 ^ N.of_nat (S (N.to_nat (N.log2 n))).
Proof.
  rewrite Nat2N.inj_succ, N2Nat.id.
  destruct (N.eq_dec n 0) as [->|Hn]; [reflexivity|].
  assert (Hpos : 0 < n) by lia.
  destruct (N.log2_spec n Hpos) as [_ H].
  eapply N.lt_le_trans; [exact H|].
  apply N.pow_le_mono_l. lia.
Qed.

Lemma long_from_string_prefixed (negative : bool) (v : N) (rest : str) :
  v < 8 ->
  long_from_string ((if negative then [45] else [])
                      ++ 48 :: 111 :: (48 + v) :: rest)
  = match scan_octal ((48 + v) :: rest) false O 0 with
    | Some (n, S _, r) =>
        match skip_space r with
        | [] => Some (if negative then (- Z.of_N n)%Z else Z.of_N n)
        | _ => None
        end
    | _ => None
    end.
Proof.
  intros H.
  assert (K : v = 0 \/ v = 1 \/ v = 2 \/ v = 3 \/ v = 4 \/ v = 5 \/ v = 6
              \/ v = 7) by lia.
  destruct negative;
    repeat (destruct K as [K|K]; [subst; reflexivity|]);
    subst; reflexivity.
Qed.

Lemma oct_digits_ascii (fuel : nat) :
  forall (n : N) (acc : str),
    forallb (fun c => c <? 128) acc = true ->
    forallb (fun c => c <? 128) (oct_digits fuel n acc) = true.
Proof.
  induction fuel as [|f IH]; intros n acc H; [exact H|].
  cbn [oct_digits].
  assert (Hm : n mod 8 < 8) by (apply N.mod_lt; discriminate).
  assert (Hc : forallb (fun c => c <? 128) ((48 + n mod 8) :: acc) = true).
  { cbn [forallb]. rewrite H, andb_true_r. apply N.ltb_lt. lia. }
  destruct (n / 8 =? 0); [exact Hc | apply IH; exact Hc].
Qed.

Lemma oct_ascii (z : Z) :
  transform_decimal_and_space (oct z) = oct z.
Proof.
  unfold transform_decimal_and_space.
  replace (forallb (fun c => c <? 128) (oct z)) with true; [reflexivity|].
  symmetry. unfold oct. rewrite forallb_app.
  rewrite (oct_digits_ascii _ _ [] eq_refl), andb_true_r.
  destruct (z <? 0)%Z; reflexivity.
Qed.

Lemma int_base8_oct (z : Z) : int_base8 (oct z) = Some z.
Proof.
  unfold int_base8. rewrite oct_ascii. unfold oct.
  set (n := Z.abs_N z).
  set (fuel := S (N.to_nat (N.log2 n))).
  assert (Hf : (0 < fuel)%nat) by (unfold fuel; lia).
  destruct (oct_digits_head fuel n [] Hf) as [v [rest [Hv Hd]]].
  destruct (oct_digits_scan fuel n [] O 0 Hf (oct_fuel_enough n)) as [k Hk].
  replace ((if (z <? 0)%Z then lit "-0o" else lit "0o")
             ++ oct_digits fuel n [])
    with ((if (z <? 0)%Z then [45] else [])
            ++ 48 :: 111 :: (48 + v) :: rest)
    by (rewrite Hd; destruct (z <? 0)%Z; reflexivity).
  rewrite (long_from_string_prefixed _ v rest Hv), <- Hd, Hk.
  cbn [scan_octal skip_space]. f_equal.
  rewrite N.mul_0_l, N.add_0_l. unfold n.
  rewrite N2Z.inj_abs_N.
  destruct (z <? 0)%Z eqn:E; [apply Z.ltb_lt in E | apply Z.ltb_ge in E]; lia.
Qed.

(** X21.  Reading back in base 8 what [oct] prints gives the number again, for
    every integer; so the mode text that [chmod] reports is itself an
    accepted mode, and a call with that text does what the call with the
    number does. *)
Theorem chmod_oct_text (self : VFS) (m : Z) (path : str) :
  int_base8 (oct m) = Some m
  /\ chmod self (MStr (oct m)) path = chmod self (MInt m) path.
Proof.
  split; [apply int_base8_oct|].
  unfold chmod. rewrite int_base8_oct. reflexivity.
Qed.

(** ** Seven-bit text files *)




(** ** The shell: what the dispatcher logs *)

Lemma dispatch_error (host : Host) (clock : Clock) (self : ShellEmulator)
      (cmd : str) (args : list str) :
  snd (fst (dispatch host clock self cmd args))
  = if known_command cmd then
      if str_eqb cmd (lit "whoami") then
        match os_getlogin host with
        | inl _ => None
        | inr e => Some (ExecutionError e)
        end
      else None
    else Some (UnknownCommand cmd).
Proof.
  unfold dispatch, known_command. cbn [existsb].
  destruct (str_eqb cmd (lit "exit")) eqn:E1.
  { apply str_eqb_eq in E1. subst. reflexivity. }
  destruct (str_eqb cmd (lit "ls")) eqn:E2.
  { apply str_eqb_eq in E2. subst. reflexivity. }
  destruct (str_eqb cmd (lit "cd")) eqn:E3.
  { apply str_eqb_eq in E3. subst. cbn [orb].
    destruct (change_dir (vfs self) _). reflexivity. }
  destruct (str_eqb cmd (lit "whoami")) eqn:E4.
  { cbn [orb]. destruct (os_getlogin host); reflexivity. }
  destruct (str_eqb cmd (lit "date")) eqn:E5; [reflexivity|].
  destruct (str_eqb cmd (lit "cat")) eqn:E6.
  { destruct args; reflexivity. }
  destruct (str_eqb cmd (lit "chmod")) eqn:E7; [|reflexivity].
  cbn [orb]. destruct args as [|mode [|path rest]]; try reflexivity.
  destruct (chmod (vfs self) (MStr mode) path). reflexivity.
Qed.

Lemma dispatch_from_vfs (host : Host) (clock : Clock) (self : ShellEmulator)
      (cmd : str) (args : list str) (r : Result) :
  fst (fst (dispatch host clock self cmd args)) = FromVfs r ->
  snd (fst (dispatch host clock self cmd args)) = None.
Proof.
  unfold dispatch.
  destruct (str_eqb cmd (lit "exit")); [discriminate|].
  destruct (str_eqb cmd (lit "ls")); [reflexivity|].
  destruct (str_eqb cmd (lit "cd")).
  { destruct (change_dir (vfs self) _). reflexivity. }
  destruct (str_eqb cmd (lit "whoami")).
  { destruct (os_getlogin host); discriminate. }
  destruct (str_eqb cmd (lit "date")); [discriminate|].
  destruct (str_eqb cmd (lit "cat")).
  { destruct args; reflexivity. }
  destruct (str_eqb cmd (lit "chmod")); [|discriminate].
  destruct args as [|mode [|path rest]]; try reflexivity.
  destruct (chmod (vfs self) (MStr mode) path). reflexivity.
Qed.

Lemma dispatch_log_history (host : Host) (clock : Clock)
      (self : ShellEmulator) (cmd : str) (args : list str) :
  history (snd (dispatch host clock self cmd args)) = history self
  /\ logs (snd (dispatch host clock self cmd args)) = logs self.
Proof.
  unfold dispatch.
  repeat match goal with
         | |- context [if ?b then _ else _] => destruct b
         | |- context [let '(_, _) := ?p in _] => destruct p
         | |- context [match os_getlogin host with _ => _ end] =>
             destruct (os_getlogin host)
         | |- context [match args with _ => _ end] =>
             destruct args as [|? [|? ?]]
         end; split; reflexivity.
Qed.

(** X22.  A command line with at least one word adds exactly one entry to the
    log and the expanded line to the history.  The entry names the
    command and its arguments; its error is set only for a command name
    the dispatcher does not know and for a [whoami] whose
    [os.getlogin] raises: what the VFS commands answer, their error
    texts included, is logged with no error. *)
Theorem execute_command_logs_one_entry (host : Host) (clock : Clock)
        (self : ShellEmulator) (user_input cmd : str) (args : list str) :
  parse_input host (expand_env_vars host user_input) = cmd :: args ->
  exists e,
    logs (snd (execute_command host clock self user_input))
    = logs self ++ [mkLogEntry (now_isoformat clock) cmd args e]
    /\ history (snd (execute_command host clock self user_input))
       = history self ++ [expand_env_vars host user_input]
    /\ (forall r,
           fst (execute_command host clock self user_input) = FromVfs r ->
           e = None)
    /\ e = (if known_command cmd then
              if str_eqb cmd (lit "whoami") then
                match os_getlogin host with
                | inl _ => None
                | inr x => Some (ExecutionError x)
                end
              else None
            else Some (UnknownCommand cmd)).
Proof.
  intros Hp. unfold execute_command. rewrite Hp.
  pose proof (dispatch_error host clock self cmd args) as He.
  pose proof (dispatch_from_vfs host clock self cmd args) as Hv.
  pose proof (dispatch_log_history host clock self cmd args) as [Hh Hl].
  destruct (dispatch host clock self cmd args) as [[result err] self'].
  cbn [fst snd] in *. exists err. cbn [logs history].
  rewrite Hh, Hl. repeat split; try reflexivity; assumption.
Qed.

Lemma execute_command_logs_one_entry_witness :
  exists e,
    logs (snd (execute_command sample_host sample_clock
                 (shell_with_vfs None) (lit "cat /nothing")))
    = logs (shell_with_vfs None)
        ++ [mkLogEntry (now_isoformat sample_clock) (lit "cat")
              [lit "/nothing"] e]
    /\ e = None
    /\ fst (execute_command sample_host sample_clock
              (shell_with_vfs None) (lit "cat /nothing"))
       = FromVfs (NotFound (lit "/nothing")).
Proof.
  destruct (execute_command_logs_one_entry sample_host sample_clock
              (shell_with_vfs None) (lit "cat /nothing") (lit "cat")
              [lit "/nothing"] eq_refl) as [e [H1 [_ [H3 _]]]].
  exists e. split; [exact H1|]. split; [|reflexivity].
  apply (H3 (NotFound (lit "/nothing"))). reflexivity.
Defined.

(** ** The shell: the VFS stays a session of the four commands *)

Lemma run_app (v : VFS) (cs1 cs2 : list Call) :
  run (run v cs1) cs2 = run v (cs1 ++ cs2).
Proof. unfold run. rewrite fold_left_app. reflexivity. Qed.

Lemma dispatch_vfs (host : Host) (clock : Clock) (self : ShellEmulator)
      (cmd : str) (args : list str) :
  exists cs, vfs (snd (dispatch host clock self cmd args)) = run (vfs self) cs.
Proof.
  unfold dispatch.
  destruct (str_eqb cmd (lit "exit")); [exists []; reflexivity|].
  destruct (str_eqb cmd (lit "ls")); [exists []; reflexivity|].
  destruct (str_eqb cmd (lit "cd")).
  { exists [CallChangeDir (match args with a :: _ => a | [] => lit "/" end)].
    unfold run. cbn [fold_left call].
    destruct (change_dir (vfs self) _). reflexivity. }
  destruct (str_eqb cmd (lit "whoami")).
  { destruct (os_getlogin host); exists []; reflexivity. }
  destruct (str_eqb cmd (lit "date")); [exists []; reflexivity|].
  destruct (str_eqb cmd (lit "cat")).
  { destruct args; exists []; reflexivity. }
  destruct (str_eqb cmd (lit "chmod")); [|exists []; reflexivity].
  destruct args as [|mode [|path rest]]; try (exists []; reflexivity).
  exists [CallChmod (MStr mode) path]. unfold run. cbn [fold_left call].
  destruct (chmod (vfs self) (MStr mode) path). reflexivity.
Qed.

Lemma execute_command_vfs (host : Host) (clock : Clock)
      (self : ShellEmulator) (user_input : str) :
  exists cs,
    vfs (snd (execute_command host clock self user_input))
    = run (vfs self) cs.
Proof.
  unfold execute_command.
  destruct (parse_input host (expand_env_vars host user_input))
    as [|cmd args]; [exists []; reflexivity|].
  destruct (dispatch_vfs host clock self cmd args) as [cs H].
  destruct (dispatch host clock self cmd args) as [[result err] self'].
  exists cs. exact H.
Qed.

Lemma run_script_lines_vfs (host : Host) (lines : list (Clock * str)) :
  forall self, exists cs,
    vfs (run_script_lines host self lines) = run (vfs self) cs.
Proof.
  induction lines as [|[clock line] rest IH]; intros self;
    [exists []; reflexivity|].
  cbn [run_script_lines].
  destruct (match strip line with [] => true | _ => startswith (strip line) 35
            end); [apply IH|].
  destruct (execute_command_vfs host clock self (strip line)) as [cs1 H1].
  destruct (IH (snd (execute_command host clock self (strip line))))
    as [cs2 H2].
  exists (cs1 ++ cs2). rewrite H2, H1. apply run_app.
Qed.

Lemma run_interactive_vfs (host : Host) (events : list (Clock * InputEvent)) :
  forall self, exists cs,
    vfs (run_interactive host self events) = run (vfs self) cs.
Proof.
  induction events as [|[clock ev] rest IH]; intros self.
  - exists []. simpl. destruct (running self); reflexivity.
  - cbn [run_interactive]. destruct (running self); [|exists []; reflexivity].
    destruct ev as [text| |]; try (exists []; reflexivity).
    destruct (strip text) as [|c u] eqn:E; [apply IH|].
    destruct (execute_command_vfs host clock self (c :: u)) as [cs1 H1].
    destruct (IH (snd (execute_command host clock self (c :: u))))
      as [cs2 H2].
    exists (cs1 ++ cs2). rewrite H2, H1. apply run_app.
Qed.

(** X23.  Over the whole life of the program (the archive imported into a
    fresh VFS, the startup script, then the interactive loop) the VFS is
    one that the four commands reach from the imported tree, so the root
    stays a directory and [current_path] stays a normalised path that
    resolves to a directory, whatever the script and the user type. *)
Theorem shell_keeps_session (host : Host) (zf : option (list ZipInfo))
        (script : option (list (Clock * str)))
        (events : list (Clock * InputEvent)) :
  exists cs,
    vfs (run_interactive host
           (run_startup_script host (shell_with_vfs zf) script) events)
    = run (snd (load_from_zip VFS_init zf)) cs
    /\ session_ok
         (vfs (run_interactive host
                 (run_startup_script host (shell_with_vfs zf) script)
                 events)).
Proof.
  destruct (run_interactive_vfs host events
              (run_startup_script host (shell_with_vfs zf) script))
    as [cs2 H2].
  assert (H1 : exists cs1,
             vfs (run_startup_script host (shell_with_vfs zf) script)
             = run (snd (load_from_zip VFS_init zf)) cs1).
  { destruct script as [lines|]; [|exists []; reflexivity].
    apply (run_script_lines_vfs host lines (shell_with_vfs zf)). }
  destruct H1 as [cs1 H1].
  exists (cs1 ++ cs2). rewrite H2, H1, run_app.
  split; [reflexivity | apply session_ok_run].
Qed.

(** ** The shell: [exit], scripts and the defaults of [ls] and [cd] *)

Lemma dispatch_running (host : Host) (clock : Clock) (self : ShellEmulator)
      (cmd : str) (args : list str) :
  running (snd (dispatch host clock self cmd args))
  = if str_eqb cmd (lit "exit") then false else running self.
Proof.
  unfold dispatch.
  destruct (str_eqb cmd (lit "exit")); [reflexivity|].
  repeat match goal with
         | |- context [if ?b then _ else _] => destruct b
         | |- context [let '(_, _) := ?p in _] => destruct p
         | |- context [match os_getlogin host with _ => _ end] =>
             destruct (os_getlogin host)
         | |- context [match args with _ => _ end] =>
             destruct args as [|? [|? ?]]
         end; reflexivity.
Qed.

Lemma execute_command_running (host : Host) (clock : Clock)
      (self : ShellEmulator) (user_input : str) :
  running (snd (execute_command host clock self user_input))
  = match parse_input host (expand_env_vars host user_input) with
    | cmd :: _ => if str_eqb cmd (lit "exit") then false else running self
    | [] => running self
    end.
Proof.
  unfold execute_command.
  destruct (parse_input host (expand_env_vars host user_input))
    as [|cmd args]; [reflexivity|].
  pose proof (dispatch_running host clock self cmd args) as H.
  destruct (dispatch host clock self cmd args) as [[result err] self'].
  exact H.
Qed.

Lemma run_interactive_stopped (host : Host) (self : ShellEmulator)
      (events : list (Clock * InputEvent)) :
  running self = false -> run_interactive host self events = self.
Proof. intros H. destruct events; simpl; rewrite H; reflexivity. Qed.

Lemma run_script_lines_running (host : Host) (lines : list (Clock * str)) :
  forall self, running self = false ->
               running (run_script_lines host self lines) = false.
Proof.
  induction lines as [|[clock line] rest IH]; intros self H; [assumption|].
  cbn [run_script_lines].
  destruct (match strip line with [] => true | _ => startswith (strip line) 35
            end); [apply IH; assumption|].
  apply IH. rewrite execute_command_running.
  destruct (parse_input host (expand_env_vars host (strip line)))
    as [|cmd args]; [assumption|].
  destruct (str_eqb cmd (lit "exit")); [reflexivity | assumption].
Qed.

(** X24.  In the interactive loop a line whose first word is "exit" is the
    last one executed: the shell it leaves is not running and the loop
    returns it, whatever input follows. *)
Theorem exit_ends_interactive_loop (host : Host) (clock : Clock)
        (self : ShellEmulator) (text : str) (args : list str)
        (rest : list (Clock * InputEvent)) :
  running self = true -> strip text <> [] ->
  parse_input host (expand_env_vars host (strip text)) = lit "exit" :: args ->
  run_interactive host self ((clock, InputLine text) :: rest)
  = snd (execute_command host clock self (strip text))
  /\ running (snd (execute_command host clock self (strip text))) = false.
Proof.
  intros Hr Hs Hp.
  assert (Hstop : running (snd (execute_command host clock self (strip text)))
                  = false).
  { rewrite execute_command_running, Hp. reflexivity. }
  split; [|exact Hstop].
  cbn [run_interactive]. rewrite Hr.
  destruct (strip text) as [|c u]; [congruence|].
  apply run_interactive_stopped. exact Hstop.
Qed.

Lemma exit_ends_interactive_loop_witness :
  logs (run_interactive sample_host (shell_with_vfs None)
          [(sample_clock, InputLine (lit "  exit now "));
           (sample_clock, InputLine (lit "ls"))])
  = [mkLogEntry (now_isoformat sample_clock) (lit "exit") [lit "now"] None].
Proof.
  rewrite (proj1 (exit_ends_interactive_loop sample_host sample_clock
                    (shell_with_vfs None) (lit "  exit now ") [lit "now"]
                    [(sample_clock, InputLine (lit "ls"))]
                    eq_refl ltac:(discriminate) eq_refl)).
  reflexivity.
Defined.

(** X25.  A shell that is not running stays so through a startup script, which
    is nevertheless run to its end, and the interactive loop then does
    nothing: no command sets [running] again. *)
Theorem stopped_shell_stays_stopped (host : Host) (self : ShellEmulator)
        (script : option (list (Clock * str)))
        (events : list (Clock * InputEvent)) :
  running self = false ->
  running (run_startup_script host self script) = false
  /\ run_interactive host (run_startup_script host self script) events
     = run_startup_script host self script.
Proof.
  intros H.
  assert (K : running (run_startup_script host self script) = false).
  { destruct script as [lines|]; [|assumption].
    apply run_script_lines_running. assumption. }
  split; [exact K | apply run_interactive_stopped; exact K].
Qed.

Lemma stopped_shell_stays_stopped_witness :
  List.length
    (logs (run_interactive sample_host
             (run_startup_script sample_host
                (snd (execute_command sample_host sample_clock
                        (shell_with_vfs None) (lit "exit")))
                (Some [(sample_clock, lit "ls"); (sample_clock, lit "date")]))
             [(sample_clock, InputLine (lit "whoami"))]))
  = 3%nat.
Proof.
  rewrite (proj2 (stopped_shell_stays_stopped sample_host
                    (snd (execute_command sample_host sample_clock
                            (shell_with_vfs None) (lit "exit")))
                    (Some [(sample_clock, lit "ls");
                           (sample_clock, lit "date")])
                    [(sample_clock, InputLine (lit "whoami"))] eq_refl)).
  reflexivity.
Defined.

(** X26.  A startup script is run line by line to its end: running it is
    running its first part and then the rest, and lines that are blank
    or start with "#" after stripping leave the shell as it is. *)
Theorem run_script_lines_compose (host : Host) (self : ShellEmulator)
        (l1 l2 : list (Clock * str)) :
  run_script_lines host self (l1 ++ l2)
  = run_script_lines host (run_script_lines host self l1) l2
  /\ (forallb (fun cl => skipped_line (snd cl)) l1 = true ->
      run_script_lines host self (l1 ++ l2) = run_script_lines host self l2).
Proof.
  split.
  - revert self; induction l1 as [|[clock line] l1 IH]; intros self;
      [reflexivity|].
    cbn [app run_script_lines].
    destruct (match strip line with [] => true | _ => startswith (strip line) 35
              end); apply IH.
  - revert self; induction l1 as [|[clock line] l1 IH]; intros self H;
      [reflexivity|].
    cbn [forallb snd] in H. apply andb_true_iff in H. destruct H as [H1 H2].
    cbn [app run_script_lines]. unfold skipped_line in H1.
    destruct (strip line) as [|c u].
    + apply IH. assumption.
    + cbv iota in H1 |- *. rewrite H1. apply IH. assumption.
Qed.

Lemma run_script_lines_compose_witness :
  run_script_lines sample_host (shell_with_vfs None)
    ([(sample_clock, lit "# a comment"); (sample_clock, lit "   ")]
       ++ [(sample_clock, lit "date")])
  = run_script_lines sample_host (shell_with_vfs None)
      [(sample_clock, lit "date")].
Proof.
  apply (proj2 (run_script_lines_compose sample_host (shell_with_vfs None)
                  [(sample_clock, lit "# a comment"); (sample_clock, lit "   ")]
                  [(sample_clock, lit "date")])).
  reflexivity.
Defined.

Lemma normalize_path_dot (self : VFS) :
  normalize_path self (current_path self) = current_path self ->
  normalize_path self (lit ".") = current_path self.
Proof.
  intros H. rewrite normalize_path_assemble in H |- *.
  rewrite (resolved_of_relative self (lit ".") eq_refl).
  change (kept_parts (lit ".")) with (@nil str). rewrite app_nil_r.
  rewrite <- H at 1.
  rewrite (kept_parts_assemble _ (resolved_of_canonical self _)).
  rewrite (resolve_no_dotdot _ [] (resolved_of_canonical self _)).
  exact H.
Qed.

(** X27.  In a session that satisfies the invariant the defaults of the
    dispatcher cannot fail: "ls" without a path lists the directory
    [current_path] names, "cd" without a path moves to the root. *)
Theorem dispatcher_defaults (host : Host) (clock : Clock)
        (self : ShellEmulator) :
  session_ok (vfs self) ->
  (exists node,
      get_node (vfs self) (current_path (vfs self)) = Some node
      /\ dispatch host clock self (lit "ls") []
         = (FromVfs (Listing (render_listing (dir_entries node))), None, self))
  /\ dispatch host clock self (lit "cd") []
     = (FromVfs (Moved (lit "/")), None,
        mkShell (mkVFS (root (vfs self)) (lit "/")) (running self)
                (history self) (logs self)).
Proof.
  intros [Hr [Hn [node [Hg Ht]]]]. split.
  - exists node. split; [assumption|].
    unfold dispatch. cbn [str_eqb lit]. simpl str_eqb. cbv iota.
    do 2 f_equal. f_equal. apply list_dir_listing; [|assumption].
    rewrite get_node_descend in Hg |- *.
    unfold node_ref in Hg |- *.
    rewrite (normalize_path_dot _ Hn). rewrite Hn in Hg. exact Hg.
  - unfold dispatch. simpl str_eqb. cbv iota.
    unfold change_dir.
    change (normalize_path (vfs self) (lit "/")) with (lit "/").
    change (get_node (vfs self) (lit "/")) with (Some (root (vfs self))).
    cbv iota. rewrite Hr. reflexivity.
Qed.

Lemma dispatcher_defaults_witness :
  dispatch sample_host sample_clock
           (mkShell sample_vfs true [] []) (lit "ls") []
  = (FromVfs (Listing (lit "d755 docs" ++ [10] ++ lit "-644 b.bin")), None,
     mkShell sample_vfs true [] []).
Proof.
  destruct (dispatcher_defaults sample_host sample_clock
              (mkShell sample_vfs true [] [])) as [[node [Hg Hd]] _].
  - split; [reflexivity|]. split; [reflexivity|].
    exists (root sample_vfs). split; reflexivity.
  - rewrite Hd. cbn [vfs] in Hg.
    change (get_node sample_vfs (current_path sample_vfs))
      with (Some (root sample_vfs)) in Hg.
    inversion Hg. reflexivity.
Defined.

(** ** The importer only adds *)

Lemma prefixb_is_prefix (p q : list str) :
  prefixb p q = false -> ~ is_prefix p q.
Proof.
  revert q; induction p as [|x p IH]; intros q H [r Hr]; [discriminate|].
  destruct q as [|y q]; [discriminate|].
  simpl in Hr. inversion Hr; subst y q. simpl in H.
  rewrite str_eqb_refl in H. simpl in H.
  apply (IH _ H). exists r. reflexivity.
Qed.

Lemma import_parts_keeps (parts : list str) (info : ZipInfo) :
  forall (node : Node) (q : list str) (n : Node),
    is_dir info = true \/ ~ is_prefix parts q ->
    descend q node = Some n ->
    exists n',
      descend q (fst (import_parts parts info node)) = Some n'
      /\ type n' = type n /\ content n' = content n
      /\ permissions n' = permissions n.
Proof.
  induction parts as [|part rest IH]; intros node q n Hc Hq.
  - exists n. simpl. auto.
  - destruct q as [|k q'].
    + simpl in Hq. inversion Hq; subst n. eexists. split; [reflexivity|].
      apply import_parts_own_fields.
    + simpl in Hq.
      destruct (dict_get k (children node)) as [c|] eqn:E; [|discriminate].
      destruct (at_file_part rest info) eqn:F.
      * assert (Hk : str_eqb k part = false).
        { destruct rest; [|discriminate]. simpl in F.
          apply negb_true_iff in F.
          destruct Hc as [Hc|Hc]; [congruence|].
          apply str_eqb_neq. intros ->. apply Hc. exists q'. reflexivity. }
        cbn [import_parts]. rewrite F.
        assert (Same : exists n',
                   descend (k :: q') node = Some n'
                   /\ type n' = type n /\ content n' = content n
                   /\ permissions n' = permissions n).
        { exists n. simpl. rewrite E. auto. }
        destruct (read info) as [b|]; [|exact Same].
        destruct (bytes_decode (b64encode b)); [|exact Same].
        exists n. cbn [fst]. simpl.
        rewrite dict_get_set_other, E by assumption. auto.
      * rewrite (import_parts_dir_step part rest info node F).
        destruct (ensure_dir_get part node) as [child Hch]. rewrite Hch.
        destruct (str_eqb k part) eqn:Hk.
        -- apply str_eqb_eq in Hk. subst k.
           rewrite (ensure_dir_present part node c E) in Hch |- *.
           assert (child = c) by congruence. subst child.
           assert (Hc' : is_dir info = true \/ ~ is_prefix rest q').
           { destruct Hc as [Hc|Hc]; [left; assumption|]. right.
             intros [r Hr]. apply Hc. exists r. simpl. congruence. }
           destruct (IH c q' n Hc' Hq) as [n' [H1 H2]].
           destruct (import_parts rest info c) as [child' ok].
           cbn [fst] in *. exists n'. split; [|exact H2].
           simpl. rewrite dict_get_set_same. exact H1.
        -- destruct (import_parts rest info child) as [child' ok].
           cbn [fst]. exists n. simpl.
           rewrite dict_get_set_other by assumption.
           unfold ensure_dir.
           destruct (dict_get part (children node)).
           ++ rewrite E. auto.
           ++ simpl. rewrite dict_get_set_other, E by assumption. auto.
Qed.

(** X14.  The import of an entry never removes a node and never changes the
    type, content or permissions of one, except at and below the path
    where a file entry writes its file: a directory entry alters
    nothing that exists, a file entry nothing outside its own path. *)
Theorem import_entry_keeps_existing (info : ZipInfo) (node : Node)
        (q : list str) (n : Node) :
  is_dir info = true \/ ~ is_prefix (entry_parts info) q ->
  descend q node = Some n ->
  exists n',
    descend q (fst (import_entry info node)) = Some n'
    /\ type n' = type n /\ content n' = content n
    /\ permissions n' = permissions n.
Proof. apply import_parts_keeps. Qed.

Lemma import_entry_keeps_existing_witness :
  exists n',
    descend [lit "docs"] (fst (import_entry entry_readme (root sample_vfs)))
    = Some n'
    /\ type n' = TDir /\ content n' = None /\ permissions n' = Some 493%Z.
Proof.
  apply (import_entry_keeps_existing entry_readme (root sample_vfs)
           [lit "docs"] (mkNode TDir
              [(lit "readme.txt",
                mkNode TFile [] (Some (lit "aGVsbG8=")) (Some 420%Z))]
              None (Some 493%Z))).
  - right. apply prefixb_is_prefix. reflexivity.
  - reflexivity.
Defined.










(** ** The four commands resolve a path alike *)

Lemma cat_file_cases (self : VFS) (path : str) :
  match get_node self path with
  | None => cat_file self path = NotFound path
  | Some node =>
      match type node with
      | TDir => cat_file self path = NotAFile path
      | TFile => exists text, cat_file self path = Content text
      end
  end.
Proof.
  unfold cat_file. rewrite (get_node_normalized self self path eq_refl).
  destruct (get_node self path) as [node|]; [|reflexivity].
  destruct (type node); [reflexivity|].
  destruct (b64decode _) as [raw|]; [|eauto].
  destruct (bytes_decode raw); eauto.
Qed.

(** X9.  The four commands agree on every path: when it resolves to nothing
    all four answer [NotFound] and leave the session alone; when it
    resolves to a directory [list_dir] lists it, [change_dir] moves
    there and [cat_file] answers [NotAFile]; when it resolves to a file
    [list_dir] and [change_dir] answer [NotADirectory] and [cat_file]
    returns a text. *)
Theorem commands_agree_on_path (self : VFS) (path : str) :
  match get_node self path with
  | None =>
      list_dir self path = NotFound path
      /\ change_dir self path = (NotFound path, self)
      /\ cat_file self path = NotFound path
      /\ forall mode, chmod self mode path = (NotFound path, self)
  | Some node =>
      match type node with
      | TDir =>
          list_dir self path = Listing (render_listing (dir_entries node))
          /\ change_dir self path
             = (Moved (normalize_path self path),
                mkVFS (root self) (normalize_path self path))
          /\ cat_file self path = NotAFile path
      | TFile =>
          list_dir self path = NotADirectory path
          /\ change_dir self path = (NotADirectory path, self)
          /\ exists text, cat_file self path = Content text
      end
  end.
Proof.
  pose proof (cat_file_cases self path) as C.
  destruct (get_node self path) as [node|] eqn:E.
  - destruct (type node) eqn:T.
    + split; [apply list_dir_listing; assumption|]. split; [|exact C].
      unfold change_dir.
      rewrite (get_node_normalized self self path eq_refl), E, T.
      reflexivity.
    + split; [|split; [|exact C]].
      * unfold list_dir.
        rewrite (get_node_normalized self self path eq_refl), E, T.
        reflexivity.
      * unfold change_dir.
        rewrite (get_node_normalized self self path eq_refl), E, T.
        reflexivity.
  - split; [|split; [|split; [exact C|]]].
    + unfold list_dir.
      rewrite (get_node_normalized self self path eq_refl), E. reflexivity.
    + unfold change_dir.
      rewrite (get_node_normalized self self path eq_refl), E. reflexivity.
    + intros mode. apply chmod_missing. assumption.
Qed.

(** ** An entry below a file *)

Lemma descend_app (q r : list str) :
  forall node,
    descend (q ++ r) node
    = match descend q node with
      | Some m => descend r m
      | None => None
      end.
Proof.
  induction q as [|k q IH]; intros node; [reflexivity|].
  simpl. destruct (dict_get k (children node)); [apply IH | reflexivity].
Qed.

(** X16.  The importer does not look at the kind of the nodes it walks
    through: a file entry whose parent path exists is written into the
    children of the parent whatever the parent is, and the parent keeps
    its type and content.  So a file can get children, which [get_node]
    then finds below it. *)
Theorem file_entry_below_any_node (info : ZipInfo) (b : bytes)
        (node parent : Node) (q : list str) (name : str) :
  is_dir info = false -> read info = Some b ->
  entry_parts info = q ++ [name] ->
  descend q node = Some parent ->
  snd (import_entry info node) = true
  /\ descend (q ++ [name]) (fst (import_entry info node))
     = Some (new_file (b64text b))
  /\ exists parent',
       descend q (fst (import_entry info node)) = Some parent'
       /\ type parent' = type parent
       /\ content parent' = content parent
       /\ dict_get name (children parent') = Some (new_file (b64text b)).
Proof.
  intros Hd Hr Hp Hq. unfold import_entry. fold (entry_parts info).
  destruct (import_parts_file_stored (entry_parts info) info b node
              (split_not_nil _ _) Hd Hr) as [H1 H2].
  assert (Hc : is_dir info = true \/ ~ is_prefix (entry_parts info) q).
  { right. rewrite Hp. intros [r Hx].
    apply (f_equal (@List.length str)) in Hx.
    rewrite !length_app in Hx. simpl in Hx. lia. }
  destruct (import_parts_keeps (entry_parts info) info node q parent Hc Hq)
    as [parent' [D [T [C _]]]].
  rewrite Hp in H1, H2, D |- *. split; [exact H1|]. split; [exact H2|].
  exists parent'. split; [exact D|]. split; [exact T|]. split; [exact C|].
  rewrite descend_app, D in H2. simpl in H2.
  destruct (dict_get name (children parent')) as [c|]; [|discriminate].
  exact H2.
Qed.

Lemma file_entry_below_any_node_witness :
  exists parent',
    descend [lit "b.bin"]
            (fst (import_entry
                    (mkZipInfo (lit "b.bin/x") false (Some [x68]))
                    (root sample_vfs)))
    = Some parent'
    /\ type parent' = TFile
    /\ content parent' = Some (lit "/w==")
    /\ dict_get (lit "x") (children parent')
       = Some (new_file (b64text [x68])).
Proof.
  exact (proj2 (proj2
    (file_entry_below_any_node
       (mkZipInfo (lit "b.bin/x") false (Some [x68])) [x68]
       (root sample_vfs)
       (mkNode TFile [] (Some (lit "/w==")) (Some 420%Z))
       [lit "b.bin"] (lit "x")
       eq_refl eq_refl eq_refl eq_refl))).
Defined.

(** ** Paths that differ by slashes and dots *)

Lemma resolved_of_kept (self : VFS) (x y : str) :
  startswith x SLASH = startswith y SLASH ->
  kept_parts x = kept_parts y ->
  resolved_of self x = resolved_of self y.
Proof.
  intros Hs Hk. destruct (startswith x SLASH) eqn:Sx.
  - rewrite (resolved_of_absolute self x Sx).
    rewrite (resolved_of_absolute self y (eq_sym Hs)), Hk. reflexivity.
  - rewrite (resolved_of_relative self x Sx).
    rewrite (resolved_of_relative self y (eq_sym Hs)), Hk. reflexivity.
Qed.

Lemma startswith_app (a b : str) (c : N) :
  a <> [] -> startswith (a ++ b) c = startswith a c.
Proof. destruct a; [congruence | reflexivity]. Qed.

(** X7.  A trailing slash, a doubled slash and a "." segment after a
    non-empty beginning do not change what a path normalises to. *)
Theorem normalize_path_ignores_redundant (self : VFS) (a b : str) :
  a <> [] ->
  normalize_path self (a ++ lit "/") = normalize_path self a
  /\ normalize_path self (a ++ lit "//" ++ b)
     = normalize_path self (a ++ lit "/" ++ b)
  /\ normalize_path self (a ++ lit "/./" ++ b)
     = normalize_path self (a ++ lit "/" ++ b).
Proof.
  intros Ha. rewrite !normalize_path_assemble.
  split; [|split]; f_equal; apply resolved_of_kept;
    rewrite ?startswith_app by assumption; try reflexivity.
  - change (lit "/") with (SLASH :: []). rewrite (kept_parts_app a []).
    apply app_nil_r.
  - change (lit "//" ++ b) with (SLASH :: ([] ++ SLASH :: b)).
    change (lit "/" ++ b) with (SLASH :: b).
    rewrite (kept_parts_app a ([] ++ SLASH :: b)), (kept_parts_app a b).
    rewrite (kept_parts_app [] b). reflexivity.
  - change (lit "/./" ++ b) with (SLASH :: (lit "." ++ SLASH :: b)).
    change (lit "/" ++ b) with (SLASH :: b).
    rewrite (kept_parts_app a (lit "." ++ SLASH :: b)), (kept_parts_app a b).
    rewrite (kept_parts_app (lit ".") b). reflexivity.
Qed.

Lemma normalize_path_ignores_redundant_witness :
  normalize_path VFS_init (lit "docs" ++ lit "/") = lit "/docs".
Proof.
  rewrite (proj1 (normalize_path_ignores_redundant VFS_init (lit "docs") []
                    ltac:(discriminate))).
  reflexivity.
Defined.

(** ** The log and the history go in step *)

Lemma execute_command_log_history (host : Host) (clock : Clock)
      (self : ShellEmulator) (user_input : str) :
  List.map (fun e => command e :: args e) (logs self)
  = List.map (parse_input host) (history self) ->
  List.map (fun e => command e :: args e)
           (logs (snd (execute_command host clock self user_input)))
  = List.map (parse_input host)
             (history (snd (execute_command host clock self user_input))).
Proof.
  intros H. unfold execute_command.
  destruct (parse_input host (expand_env_vars host user_input))
    as [|cmd rest] eqn:E; [exact H|].
  pose proof (dispatch_log_history host clock self cmd rest) as [Hh Hl].
  destruct (dispatch host clock self cmd rest) as [[result err] self'].
  cbn [fst snd logs history] in *.
  rewrite Hh, Hl, !map_app, H. cbn [List.map command args].
  rewrite E. reflexivity.
Qed.

Lemma run_script_lines_log_history (host : Host)
      (lines : list (Clock * str)) :
  forall self,
    List.map (fun e => command e :: args e) (logs self)
    = List.map (parse_input host) (history self) ->
    List.map (fun e => command e :: args e)
             (logs (run_script_lines host self lines))
    = List.map (parse_input host) (history (run_script_lines host self lines)).
Proof.
  induction lines as [|[clock line] rest IH]; intros self H; [exact H|].
  cbn [run_script_lines].
  destruct (match strip line with [] => true | _ => startswith (strip line) 35
            end); [apply IH; exact H|].
  apply IH. apply execute_command_log_history. exact H.
Qed.

Lemma run_interactive_log_history (host : Host)
      (events : list (Clock * InputEvent)) :
  forall self,
    List.map (fun e => command e :: args e) (logs self)
    = List.map (parse_input host) (history self) ->
    List.map (fun e => command e :: args e)
             (logs (run_interactive host self events))
    = List.map (parse_input host) (history (run_interactive host self events)).
Proof.
  induction events as [|[clock ev] rest IH]; intros self H.
  - simpl. destruct (running self); exact H.
  - cbn [run_interactive]. destruct (running self); [|exact H].
    destruct ev as [text| |]; try exact H.
    destruct (strip text) as [|c u]; [apply IH; exact H|].
    apply IH. apply execute_command_log_history. exact H.
Qed.

(** X28.  Over the whole life of the program the log and the history go in
    step: they have one item per executed command, in the same order,
    and the command and arguments of each log entry are the words that
    [parse_input] makes of the history line beside it. *)
Theorem log_matches_history (host : Host) (zf : option (list ZipInfo))
        (script : option (list (Clock * str)))
        (events : list (Clock * InputEvent)) :
  List.map (fun e => command e :: args e)
           (logs (run_interactive host
                    (run_startup_script host (shell_with_vfs zf) script)
                    events))
  = List.map (parse_input host)
             (history (run_interactive host
                         (run_startup_script host (shell_with_vfs zf) script)
                         events)).
Proof.
  apply run_interactive_log_history.
  destruct script as [lines|]; [|reflexivity].
  apply run_script_lines_log_history. reflexivity.
Qed.
